(** * StreakMate: streak engine, habit store and leaderboard projection

    A shallow embedding of [src/index.tsx].  The React component [App] keeps
    three pieces of state ([screen], [habits], [newHabitName]) and talks to
    two collaborators, [AsyncStorage] and [Alert]; its handlers are embedded
    as computations of a small state-and-exception monad over a [World]
    record.  The pure helpers ([isToday], [isYesterday],
    [resetStreaksIfNeeded], the leaderboard projection) are plain functions.

    Numbers: [streak] is a JavaScript number.  It is embedded as [Z]; the
    embedding is exact for integral values of magnitude below 2^53, which is
    where the increments, decrements and sums of the program are exact.

    Strings are embedded as [string], the bytes of their UTF-8 encoding.
    [trim] knows the white space and the line terminators of ECMAScript by
    their code points, which it reads off the encoding; [toLowerCase] is a
    function of the [Platform]. *)

From Stdlib Require Import Ascii ZArith DecimalString DecimalPos DecimalZ.
From Stdlib Require Import Sorting.Sorted Permutation.
From stdpp Require Import base numbers strings list gmap fin_maps pretty sorting.

Local Open Scope string_scope.
Local Open Scope Z_scope.

(** ** Data model *)

(** [interface Habit] *)
Record Habit := mkHabit {
  habit_id : string;
  habit_name : string;
  streak : Z;
  lastCompleted : option string;   (* string | null *)
  createdAt : string
}.

(** The object spreads of the program: [{ ...habit, streak: s }] and
    [{ ...habit, streak: s, lastCompleted: l }]. *)
Definition with_streak (habit : Habit) (s : Z) : Habit :=
  {| habit_id := habit_id habit; habit_name := habit_name habit;
     streak := s; lastCompleted := lastCompleted habit;
     createdAt := createdAt habit |}.

Definition with_streak_lastCompleted (habit : Habit) (s : Z)
    (l : option string) : Habit :=
  {| habit_id := habit_id habit; habit_name := habit_name habit;
     streak := s; lastCompleted := l; createdAt := createdAt habit |}.

(** [interface Person]; [habits] is a JavaScript object used as a map from
    habit name to streak, [isUser] and [totalStreak] are optional fields. *)
Record Person := mkPerson {
  person_id : string;
  person_name : string;
  person_habits : gmap string Z;
  isUser : option bool;
  totalStreak : option Z
}.

(** ** The JavaScript runtime the program relies on *)

(** The local calendar fields of a [Date]: what [getFullYear], [getMonth]
    (0-based) and [getDate] return. *)
Record LocalDate := mkLocalDate {
  getFullYear : Z;
  getMonth : Z;
  getDate : Z
}.

(** Library functions whose result depends on the device (time zone, locale,
    JSON implementation).  [Date_parse s] stands for [new Date(s)] read
    through its local getters; [None] is an Invalid Date, whose getters all
    return [NaN].  [JSON_parse] returns [None] where [JSON.parse] throws. *)
Record Platform := mkPlatform {
  Date_parse : string -> option LocalDate;
  toLowerCase : string -> string;
  JSON_stringify : list Habit -> string;
  JSON_parse : string -> option (list Habit)
}.

(** The current moment, as the three ways the program observes it:
    [new Date()] through its local getters, [new Date().toISOString()] and
    [Date.now()]. *)
Record Clock := mkClock {
  today : LocalDate;
  toISOString : string;
  Date_now : Z
}.

(** [!s] on a value of type [string | null]: [null] and the empty string
    are falsy. *)
Definition falsy (s : option string) : bool :=
  match s with
  | None => true
  | Some s' => bool_decide (s' = "")
  end.

(** Gregorian month lengths, for [setDate]. *)
Definition isLeapYear (y : Z) : bool :=
  ((y mod 4 =? 0) && negb (y mod 100 =? 0)) || (y mod 400 =? 0).

Definition daysInMonth (y m : Z) : Z :=
  if m =? 1 then (if isLeapYear y then 29 else 28)
  else if (m =? 3) || (m =? 5) || (m =? 8) || (m =? 10) then 30
  else 31.

(** [d.setDate(d.getDate() - 1)]: the day before [d].  The argument is
    [getDate() - 1]; when it is 0 the date rolls back to the last day of the
    previous month (and of the previous year in January). *)
Definition setDate_previous (d : LocalDate) : LocalDate :=
  if 1 <=? getDate d - 1 then
    {| getFullYear := getFullYear d; getMonth := getMonth d;
       getDate := getDate d - 1 |}
  else if getMonth d =? 0 then
    {| getFullYear := getFullYear d - 1; getMonth := 11;
       getDate := daysInMonth (getFullYear d - 1) 11 |}
  else
    {| getFullYear := getFullYear d; getMonth := getMonth d - 1;
       getDate := daysInMonth (getFullYear d) (getMonth d - 1) |}.

(** The three-way comparison both date predicates end with. *)
Definition sameCalendarDay (a b : LocalDate) : bool :=
  (getDate a =? getDate b) && (getMonth a =? getMonth b)
  && (getFullYear a =? getFullYear b).

(** ** Streak engine *)

Section Engine.
Context (pf : Platform) (clk : Clock).

Definition isToday (dateString : option string) : bool :=
  if falsy dateString then false
  else match dateString ≫= Date_parse pf with
       | None => false               (* NaN === n is false *)
       | Some date => sameCalendarDay date (today clk)
       end.

Definition isYesterday (dateString : option string) : bool :=
  if falsy dateString then false
  else match dateString ≫= Date_parse pf with
       | None => false
       | Some date => sameCalendarDay date (setDate_previous (today clk))
       end.

(** The callback of [habits.map] in [resetStreaksIfNeeded]. *)
Definition resetStreak (habit : Habit) : Habit :=
  if falsy (lastCompleted habit) then habit
  else
    let completedToday := isToday (lastCompleted habit) in
    let completedYesterday := isYesterday (lastCompleted habit) in
    if negb completedToday && negb completedYesterday
    then with_streak habit 0
    else habit.

Definition resetStreaksIfNeeded (habits : list Habit) : list Habit :=
  map resetStreak habits.

(** The branch of the [habits.map] callback of [toggleHabit] taken by the
    habit whose id matches. *)
Definition toggleCompletion (habit : Habit) : Habit :=
  let now := toISOString clk in
  let alreadyDone := isToday (lastCompleted habit) in
  if alreadyDone
  then with_streak_lastCompleted habit (Z.max 0 (streak habit - 1)) None
  else with_streak_lastCompleted habit (streak habit + 1) (Some now).

(** The entire callback: [habit.id === id ? ... : habit]. *)
Definition toggleIfMatch (id : string) (habit : Habit) : Habit :=
  if bool_decide (habit_id habit = id) then toggleCompletion habit
  else habit.

End Engine.

(** ** [String.prototype.trim]

    [trim] removes the leading and trailing white space and line
    terminators.  ECMAScript lists them by code point: WhiteSpace is
    U+0009, U+000B, U+000C, U+FEFF and the space separators U+0020, U+00A0,
    U+1680, U+2000 to U+200A, U+202F, U+205F and U+3000; LineTerminator is
    U+000A, U+000D, U+2028 and U+2029. *)

Definition isWhiteSpace (codePoint : N) : bool :=
  (bool_decide (codePoint ∈ [0x0009; 0x000B; 0x000C; 0xFEFF;
                             0x0020; 0x00A0; 0x1680; 0x202F; 0x205F; 0x3000;
                             0x000A; 0x000D; 0x2028; 0x2029])
   || (0x2000 <=? codePoint) && (codePoint <=? 0x200A))%N.

(** In UTF-8 a code point below U+0080 is one byte; one below U+0800 is a
    byte [110xxxxx] and a continuation byte [10xxxxxx]; one below U+10000
    is a byte [1110xxxx] and two continuation bytes.  No code point from
    U+10000 on is white space.  The next three functions tell whether the
    one, two or three bytes given are the encoding of white space. *)
Definition continuation (b : ascii) : bool :=
  ((0x80 <=? N_of_ascii b) && (N_of_ascii b <? 0xC0))%N.

Definition isWhiteSpace1 (b1 : ascii) : bool :=
  ((N_of_ascii b1 <? 0x80) && isWhiteSpace (N_of_ascii b1))%N.

Definition isWhiteSpace2 (b1 b2 : ascii) : bool :=
  let codePoint := ((N_of_ascii b1 - 0xC0) * 64 + (N_of_ascii b2 - 0x80))%N in
  ((0xC0 <=? N_of_ascii b1) && (N_of_ascii b1 <? 0xE0))%N
  && continuation b2
  && (0x80 <=? codePoint)%N && isWhiteSpace codePoint.

Definition isWhiteSpace3 (b1 b2 b3 : ascii) : bool :=
  let codePoint := ((N_of_ascii b1 - 0xE0) * 4096
                    + (N_of_ascii b2 - 0x80) * 64
                    + (N_of_ascii b3 - 0x80))%N in
  ((0xE0 <=? N_of_ascii b1) && (N_of_ascii b1 <? 0xF0))%N
  && continuation b2 && continuation b3
  && (0x800 <=? codePoint)%N && isWhiteSpace codePoint.

(** The string without its first code point, when that is white space. *)
Definition stripWhiteSpace (s : string) : option string :=
  match s with
  | String b1 s1 =>
      if isWhiteSpace1 b1 then Some s1
      else match s1 with
           | String b2 s2 =>
               if isWhiteSpace2 b1 b2 then Some s2
               else match s2 with
                    | String b3 s3 =>
                        if isWhiteSpace3 b1 b2 b3 then Some s3 else None
                    | EmptyString => None
                    end
           | EmptyString => None
           end
  | EmptyString => None
  end.

(** [trimStart] drops white space for as long as the string starts with
    some. *)
Fixpoint trimStart (s : string) : string :=
  match s with
  | String b1 s1 =>
      if isWhiteSpace1 b1 then trimStart s1
      else match s1 with
           | String b2 s2 =>
               if isWhiteSpace2 b1 b2 then trimStart s2
               else match s2 with
                    | String b3 s3 =>
                        if isWhiteSpace3 b1 b2 b3 then trimStart s3 else s
                    | EmptyString => s
                    end
           | EmptyString => s
           end
  | EmptyString => EmptyString
  end.

(** A name "consisting only of whitespace (or empty)": every code point of
    the string is white space. *)
Fixpoint whitespaceOnly (s : string) : bool :=
  match s with
  | String b1 s1 =>
      if isWhiteSpace1 b1 then whitespaceOnly s1
      else match s1 with
           | String b2 s2 =>
               if isWhiteSpace2 b1 b2 then whitespaceOnly s2
               else match s2 with
                    | String b3 s3 =>
                        isWhiteSpace3 b1 b2 b3 && whitespaceOnly s3
                    | EmptyString => false
                    end
           | EmptyString => false
           end
  | EmptyString => true
  end.

(** [trimEnd] cuts the string where what is left of it is white space
    only.  (A continuation byte never starts white space, so the cut falls
    between two code points.) *)
Fixpoint trimEnd (s : string) : string :=
  match s with
  | String b s' =>
      if whitespaceOnly (String b s') then EmptyString
      else String b (trimEnd s')
  | EmptyString => EmptyString
  end.

Definition trim (s : string) : string := trimEnd (trimStart s).

(** The string starts, or ends, with white space: it has a non-empty prefix,
    or suffix, that is white space only. *)
Definition leadingWhiteSpace (s : string) : Prop :=
  ∃ blank rest, s = blank ++ rest ∧ blank ≠ "" ∧ whitespaceOnly blank = true.

Definition trailingWhiteSpace (s : string) : Prop :=
  ∃ kept blank, s = kept ++ blank ∧ blank ≠ "" ∧ whitespaceOnly blank = true.

(** The UTF-8 encoding of a code point, and [String.fromCodePoint]: the
    text made of the code points given. *)
Definition utf8 (codePoint : N) : string :=
  let byte n := String (ascii_of_N n) "" in
  (if codePoint <? 0x80 then byte codePoint
   else if codePoint <? 0x800 then
     byte (0xC0 + codePoint / 64) ++ byte (0x80 + codePoint mod 64)
   else if codePoint <? 0x10000 then
     byte (0xE0 + codePoint / 4096) ++ byte (0x80 + (codePoint / 64) mod 64)
     ++ byte (0x80 + codePoint mod 64)
   else
     byte (0xF0 + codePoint / 262144)
     ++ byte (0x80 + (codePoint / 4096) mod 64)
     ++ byte (0x80 + (codePoint / 64) mod 64)
     ++ byte (0x80 + codePoint mod 64))%N.

Definition fromCodePoint (codePoints : list N) : string :=
  foldr (fun codePoint s => utf8 codePoint ++ s) "" codePoints.

(** ** The application state and its collaborators *)

Inductive Screen := home | add | leaderboard.

(** What a call into the runtime can throw: [JSON.parse] on malformed text,
    and a rejected [AsyncStorage] promise. *)
Inductive Exn := SyntaxError | StorageRejected.

Inductive result (A : Type) :=
| Ok (a : A)
| Throw (e : Exn).
Arguments Ok {A} a.
Arguments Throw {A} e.

(** The component state ([screen], [habits], [newHabitName]), the device
    storage with its two failure modes, and the traces of [console.error]
    and [Alert.alert] (most recent first). *)
Record World := mkWorld {
  screen : Screen;
  habits : list Habit;
  newHabitName : string;
  storage : gmap string string;
  getItem_rejects : bool;
  setItem_rejects : bool;
  console : list string;
  alerts : list (string * string)
}.

(** Computations: the world survives an exception, as it does in
    JavaScript. *)
Definition M (A : Type) : Type := World -> World * result A.

Definition ret {A} (a : A) : M A := fun w => (w, Ok a).

Definition bind {A B} (m : M A) (k : A -> M B) : M B :=
  fun w => match m w with
           | (w', Ok a) => k a w'
           | (w', Throw e) => (w', Throw e)
           end.

Definition throw {A} (e : Exn) : M A := fun w => (w, Throw e).

(** [try { body } catch (error) { handler }] *)
Definition try_catch {A} (body : M A) (handler : Exn -> M A) : M A :=
  fun w => match body w with
           | (w', Ok a) => (w', Ok a)
           | (w', Throw e) => handler e w'
           end.

Declare Scope js_scope.
Delimit Scope js_scope with js.
Notation "'let*' x := m 'in' k" := (bind m (fun x => k))
  (at level 10, x name, m at level 100, k at level 200) : js_scope.
Notation "m ;; k" := (bind m (fun _ => k))
  (at level 100, k at level 200, right associativity) : js_scope.
Local Open Scope js_scope.

Definition getHabits : M (list Habit) := fun w => (w, Ok (habits w)).
Definition getNewHabitName : M string := fun w => (w, Ok (newHabitName w)).

Definition setHabits (hs : list Habit) : M unit := fun w =>
  ({| screen := screen w; habits := hs; newHabitName := newHabitName w;
      storage := storage w; getItem_rejects := getItem_rejects w;
      setItem_rejects := setItem_rejects w; console := console w;
      alerts := alerts w |}, Ok tt).

Definition setNewHabitName (s : string) : M unit := fun w =>
  ({| screen := screen w; habits := habits w; newHabitName := s;
      storage := storage w; getItem_rejects := getItem_rejects w;
      setItem_rejects := setItem_rejects w; console := console w;
      alerts := alerts w |}, Ok tt).

Definition setScreen (sc : Screen) : M unit := fun w =>
  ({| screen := sc; habits := habits w; newHabitName := newHabitName w;
      storage := storage w; getItem_rejects := getItem_rejects w;
      setItem_rejects := setItem_rejects w; console := console w;
      alerts := alerts w |}, Ok tt).

Definition console_error (msg : string) : M unit := fun w =>
  ({| screen := screen w; habits := habits w; newHabitName := newHabitName w;
      storage := storage w; getItem_rejects := getItem_rejects w;
      setItem_rejects := setItem_rejects w; console := msg :: console w;
      alerts := alerts w |}, Ok tt).

Definition Alert_alert (title message : string) : M unit := fun w =>
  ({| screen := screen w; habits := habits w; newHabitName := newHabitName w;
      storage := storage w; getItem_rejects := getItem_rejects w;
      setItem_rejects := setItem_rejects w; console := console w;
      alerts := (title, message) :: alerts w |}, Ok tt).

Definition AsyncStorage_getItem (key : string) : M (option string) := fun w =>
  if getItem_rejects w then (w, Throw StorageRejected)
  else (w, Ok (storage w !! key)).

Definition AsyncStorage_setItem (key value : string) : M unit := fun w =>
  if setItem_rejects w then (w, Throw StorageRejected)
  else ({| screen := screen w; habits := habits w;
           newHabitName := newHabitName w;
           storage := <[key := value]> (storage w);
           getItem_rejects := getItem_rejects w;
           setItem_rejects := setItem_rejects w; console := console w;
           alerts := alerts w |}, Ok tt).

Definition HABITS_KEY : string := "@streakmate_habits".

(** The button of the confirmation dialog of [deleteHabit] the user
    presses; [Dismissed] is the dialog closed without a button. *)
Inductive AlertChoice := PressCancel | PressDelete | Dismissed.

(** ** Habit store and handlers of [App] *)

Section Store.
Context (pf : Platform) (clk : Clock).

Definition JSON_parse_or_throw (text : string) : M (list Habit) :=
  match JSON_parse pf text with
  | Some v => ret v
  | None => throw SyntaxError
  end.

Definition saveHabits (habitsToSave : list Habit) : M unit :=
  try_catch
    (AsyncStorage_setItem HABITS_KEY (JSON_stringify pf habitsToSave))
    (fun error => console_error "Save habits error:").

Definition loadHabits : M unit :=
  try_catch
    (let* data := AsyncStorage_getItem HABITS_KEY in
     let* loadedHabits :=
       (if falsy data then ret []
        else JSON_parse_or_throw (default "" data)) in
     let resetHabits := resetStreaksIfNeeded pf clk loadedHabits in
     setHabits resetHabits;;
     if bool_decide (JSON_stringify pf loadedHabits
                     ≠ JSON_stringify pf resetHabits)
     then saveHabits resetHabits
     else ret tt)
    (fun error => console_error "Load habits error:").

Definition toggleHabit (id : string) : M unit :=
  let* habits := getHabits in
  let updated := map (toggleIfMatch pf clk id) habits in
  setHabits updated;;
  saveHabits updated.

(** [deleteHabit] opens a two-button dialog; the removal is the [onPress]
    handler of its "Delete" button. *)
Definition deleteHabit (id : string) (choice : AlertChoice) : M unit :=
  let* habits := getHabits in
  Alert_alert "Delete Habit" "Are you sure?";;
  match choice with
  | PressDelete =>
      let filtered :=
        filter (fun h => habit_id h ≠ id) habits in
      setHabits filtered;;
      saveHabits filtered
  | PressCancel | Dismissed => ret tt
  end.

Definition addHabit : M unit :=
  let* habits := getHabits in
  let* newHabitName := getNewHabitName in
  if bool_decide (trim newHabitName = "") then
    Alert_alert "Error" "Please enter a habit name"
  else
    let newHabit :=
      {| habit_id := pretty (Date_now clk);
         habit_name := trim newHabitName;
         streak := 0;
         lastCompleted := None;
         createdAt := toISOString clk |} in
    let updated := (habits ++ [newHabit])%list in
    setHabits updated;;
    saveHabits updated;;
    setNewHabitName "";;
    setScreen home.

End Store.

(** ** Reference-level reading of [resetStreaksIfNeeded]

    Habit objects live in a heap (a list indexed by address, allocation
    appends); an array of habits is a list of addresses.  [habits.map]
    builds a fresh array whose elements are either the address it was given
    ([return habit]) or the address of a freshly allocated object
    ([{ ...habit, streak: 0 }]); nothing is ever stored through an existing
    address. *)

Section Refs.
Context (pf : Platform) (clk : Clock).

Definition resetStreak_ref (heap : list Habit) (r : nat)
    : option (list Habit * nat) :=
  habit ← heap !! r;
  if falsy (lastCompleted habit) then Some (heap, r)
  else
    let completedToday := isToday pf clk (lastCompleted habit) in
    let completedYesterday := isYesterday pf clk (lastCompleted habit) in
    if negb completedToday && negb completedYesterday
    then Some ((heap ++ [with_streak habit 0])%list, length heap)
    else Some (heap, r).

Fixpoint resetStreaksIfNeeded_refs (heap : list Habit) (habits : list nat)
    : option (list Habit * list nat) :=
  match habits with
  | [] => Some (heap, [])
  | r :: rest =>
      '(heap1, r') ← resetStreak_ref heap r;
      '(heap2, rest') ← resetStreaksIfNeeded_refs heap1 rest;
      Some (heap2, r' :: rest')
  end.

(** Reading an array of addresses. *)
Definition deref (heap : list Habit) (habits : list nat)
    : option (list Habit) :=
  mapM (fun r => heap !! r) habits.

End Refs.

(** ** Leaderboard projection *)

Definition MOCK_FRIENDS : list Person := [
  {| person_id := "1"; person_name := "Alex";
     person_habits := {[ "workout" := 45; "reading" := 30 ]};
     isUser := None; totalStreak := None |};
  {| person_id := "2"; person_name := "Jordan";
     person_habits := {[ "workout" := 38; "meditation" := 22 ]};
     isUser := None; totalStreak := None |};
  {| person_id := "3"; person_name := "Sam";
     person_habits := {[ "reading" := 50; "running" := 18 ]};
     isUser := None; totalStreak := None |};
  {| person_id := "4"; person_name := "Taylor";
     person_habits := {[ "workout" := 28; "reading" := 35 ]};
     isUser := None; totalStreak := None |}
].

(** [acc[key] = value] on an object created by [{}].  The key ["__proto__"]
    names the accessor inherited from [Object.prototype], whose setter
    ignores a number: that assignment creates no property. *)
Definition obj_set (key : string) (value : Z) (acc : gmap string Z)
    : gmap string Z :=
  if bool_decide (key = "__proto__") then acc else <[key := value]> acc.

(** [Object.values(o).reduce((sum, s) => sum + s, 0)]; the order in which
    the properties are visited does not matter for a sum of integers. *)
Definition sumValues (o : gmap string Z) : Z :=
  map_fold (fun _ s sum => sum + s) 0 o.

(** [x || 0] on an optional number. *)
Definition orZero (x : option Z) : Z :=
  match x with
  | Some n => if n =? 0 then 0 else n
  | None => 0
  end.

(** [Array.prototype.sort(compareFn)], a stable sort: an element moves past
    another only when [compareFn] says it is strictly greater. *)
Fixpoint sort_insert {A} (compareFn : A -> A -> Z) (x : A) (sorted : list A)
    : list A :=
  match sorted with
  | [] => [x]
  | y :: rest =>
      if 0 <? compareFn x y then y :: sort_insert compareFn x rest
      else x :: sorted
  end.

Definition Array_sort {A} (compareFn : A -> A -> Z) (l : list A) : list A :=
  foldr (sort_insert compareFn) [] l.

(** The order a difference-of-keys comparator sorts into: highest key
    first. *)
Definition descending {A} (key : A -> Z) (a b : A) : Prop := key b ≤ key a.

Definition byTotalStreakDesc (a b : Person) : Z :=
  orZero (totalStreak b) - orZero (totalStreak a).

Definition withTotal (p : Person) : Person :=
  {| person_id := person_id p; person_name := person_name p;
     person_habits := person_habits p; isUser := isUser p;
     totalStreak := Some (sumValues (person_habits p)) |}.

(** The sum of the streak values of all current habits, the quantity the
    user's total is compared with. *)
Definition streakSum (habits : list Habit) : Z :=
  foldr Z.add 0 (map streak habits).

(** The key the leaderboard is ordered by. *)
Definition rankKey (p : Person) : Z := orZero (totalStreak p).

Section Leaderboard.
Context (pf : Platform).

(** [habits.reduce((acc, h) => { acc[h.name.toLowerCase()] = h.streak;
    return acc; }, {})] *)
Definition userHabits (habits : list Habit) : gmap string Z :=
  foldl (fun acc h => obj_set (toLowerCase pf (habit_name h)) (streak h) acc)
        ∅ habits.

Definition userEntry (habits : list Habit) : Person :=
  {| person_id := "user"; person_name := "You";
     person_habits := userHabits habits;
     isUser := Some true; totalStreak := None |}.

Definition allData (habits : list Habit) : list Person :=
  userEntry habits :: MOCK_FRIENDS.

Definition getLeaderboardData (habits : list Habit) : list Person :=
  let withTotals := map withTotal (allData habits) in
  Array_sort byTotalStreakDesc withTotals.

End Leaderboard.

(** ** A concrete device

    A platform on which the program can be run inside Rocq: the time zone is
    UTC (the local calendar fields of an ISO-8601 timestamp are the ones it
    spells out), [toLowerCase] acts on the ASCII letters, and the JSON codec
    writes habit lists the way [JSON.stringify] does and reads that form
    back. *)

Module Device.

Definition digit (c : ascii) : option Z := Z.of_nat <$> Ascii.is_nat c.

(** Reads exactly [n] decimal digits. *)
Fixpoint digits (n : nat) (s : string) (acc : Z) : option (Z * string) :=
  match n with
  | O => Some (acc, s)
  | S n' =>
      match s with
      | String c s' => d ← digit c; digits n' s' (10 * acc + d)
      | EmptyString => None
      end
  end.

(** Strips the prefix [lit]. *)
Fixpoint expect (lit s : string) : option string :=
  match lit with
  | EmptyString => Some s
  | String c lit' =>
      match s with
      | String c' s' => if bool_decide (c = c') then expect lit' s' else None
      | EmptyString => None
      end
  end.

Definition parseDate (s : string) : option LocalDate :=
  '(y, s1) ← digits 4 s 0;
  s2 ← expect "-" s1;
  '(m, s3) ← digits 2 s2 0;
  s4 ← expect "-" s3;
  '(d, _) ← digits 2 s4 0;
  if (1 <=? m) && (m <=? 12) && (1 <=? d) && (d <=? daysInMonth y (m - 1))
  then Some {| getFullYear := y; getMonth := m - 1; getDate := d |}
  else None.

Definition lower_ascii (c : ascii) : ascii :=
  let n := nat_of_ascii c in
  if ((65 <=? n) && (n <=? 90))%nat then ascii_of_nat (n + 32) else c.

Fixpoint lower (s : string) : string :=
  match s with
  | String c s' => String (lower_ascii c) (lower s')
  | EmptyString => EmptyString
  end.

Definition dquote : ascii := ascii_of_nat 34.
Definition backslash : ascii := ascii_of_nat 92.

Definition escape_char (c : ascii) : string :=
  if bool_decide (c = dquote) then String backslash (String dquote "")
  else if bool_decide (c = backslash)
       then String backslash (String backslash "")
  else if bool_decide (c = ascii_of_nat 10) then String backslash "n"
  else if bool_decide (c = ascii_of_nat 13) then String backslash "r"
  else if bool_decide (c = ascii_of_nat 9) then String backslash "t"
  else String c "".

Fixpoint escape (s : string) : string :=
  match s with
  | String c s' => escape_char c ++ escape s'
  | EmptyString => EmptyString
  end.

Definition quoted (s : string) : string :=
  String dquote (escape s ++ String dquote "").

Definition key (k : string) : string := quoted k ++ ":".

(** A number in decimal, as [JSON.stringify] writes an integer. *)
Definition show_number (z : Z) : string :=
  DecimalString.NilEmpty.string_of_int (Z.to_int z).

Definition stringify_habit (h : Habit) : string :=
  "{" ++ key "id" ++ quoted (habit_id h)
  ++ "," ++ key "name" ++ quoted (habit_name h)
  ++ "," ++ key "streak" ++ show_number (streak h)
  ++ "," ++ key "lastCompleted"
  ++ match lastCompleted h with
     | Some l => quoted l
     | None => "null"
     end
  ++ "," ++ key "createdAt" ++ quoted (createdAt h) ++ "}".

Definition stringify (hs : list Habit) : string :=
  "[" ++ String.concat "," (map stringify_habit hs) ++ "]".

(** The text after an opening quote, up to the closing one. *)
Fixpoint read_string (s : string) : option (string * string) :=
  match s with
  | EmptyString => None
  | String c s' =>
      if bool_decide (c = dquote) then Some (EmptyString, s')
      else if bool_decide (c = backslash) then
        match s' with
        | String e s'' =>
            c' ← (if bool_decide (e = dquote) then Some dquote
                  else if bool_decide (e = backslash) then Some backslash
                  else if bool_decide (e = "n"%char) then Some (ascii_of_nat 10)
                  else if bool_decide (e = "r"%char) then Some (ascii_of_nat 13)
                  else if bool_decide (e = "t"%char) then Some (ascii_of_nat 9)
                  else None);
            '(body, rest) ← read_string s'';
            Some (String c' body, rest)
        | EmptyString => None
        end
      else '(body, rest) ← read_string s'; Some (String c body, rest)
  end.

Definition read_quoted (s : string) : option (string * string) :=
  s' ← expect (String dquote "") s; read_string s'.

(** The constructor of [Decimal.uint] a digit character stands for. *)
Definition digit_cons (c : ascii) : option (Decimal.uint -> Decimal.uint) :=
  match Ascii.is_nat c with
  | Some 0%nat => Some Decimal.D0
  | Some 1%nat => Some Decimal.D1
  | Some 2%nat => Some Decimal.D2
  | Some 3%nat => Some Decimal.D3
  | Some 4%nat => Some Decimal.D4
  | Some 5%nat => Some Decimal.D5
  | Some 6%nat => Some Decimal.D6
  | Some 7%nat => Some Decimal.D7
  | Some 8%nat => Some Decimal.D8
  | Some _ => Some Decimal.D9
  | None => None
  end.

(** The leading run of decimal digits, and what follows it. *)
Fixpoint read_uint (s : string) : Decimal.uint * string :=
  match s with
  | String c s' =>
      match digit_cons c with
      | Some d => let '(u, rest) := read_uint s' in (d u, rest)
      | None => (Decimal.Nil, s)
      end
  | EmptyString => (Decimal.Nil, s)
  end.

Definition nonempty_uint (u : Decimal.uint) : bool :=
  match u with
  | Decimal.Nil => false
  | _ => true
  end.

(** An optional minus sign and at least one digit. *)
Definition read_number (s : string) : option (Z * string) :=
  match expect "-" s with
  | Some s' =>
      let '(u, rest) := read_uint s' in
      if nonempty_uint u then Some (Z.of_int (Decimal.Neg u), rest) else None
  | None =>
      let '(u, rest) := read_uint s in
      if nonempty_uint u then Some (Z.of_int (Decimal.Pos u), rest) else None
  end.

Definition read_nullable (s : string) : option (option string * string) :=
  match expect "null" s with
  | Some rest => Some (None, rest)
  | None => '(l, rest) ← read_quoted s; Some (Some l, rest)
  end.

Definition read_habit (s : string) : option (Habit * string) :=
  s ← expect ("{" ++ key "id") s;
  '(i, s) ← read_quoted s;
  s ← expect ("," ++ key "name") s;
  '(n, s) ← read_quoted s;
  s ← expect ("," ++ key "streak") s;
  '(k, s) ← read_number s;
  s ← expect ("," ++ key "lastCompleted") s;
  '(l, s) ← read_nullable s;
  s ← expect ("," ++ key "createdAt") s;
  '(c, s) ← read_quoted s;
  s ← expect "}" s;
  Some ({| habit_id := i; habit_name := n; streak := k; lastCompleted := l;
           createdAt := c |}, s).

(** The elements after the first, each introduced by a comma. *)
Fixpoint read_more (fuel : nat) (s : string) : option (list Habit) :=
  match fuel with
  | O => None
  | S fuel' =>
      match expect "]" s with
      | Some rest => if bool_decide (rest = EmptyString) then Some [] else None
      | None =>
          s' ← expect "," s;
          '(h, rest) ← read_habit s';
          hs ← read_more fuel' rest;
          Some (h :: hs)
      end
  end.

Definition parse (text : string) : option (list Habit) :=
  s ← expect "[" text;
  match expect "]" s with
  | Some rest => if bool_decide (rest = EmptyString) then Some [] else None
  | None =>
      '(h, rest) ← read_habit s;
      hs ← read_more (String.length text) rest;
      Some (h :: hs)
  end.

Definition platform : Platform :=
  {| Date_parse := parseDate;
     toLowerCase := lower;
     JSON_stringify := stringify;
     JSON_parse := parse |}.

End Device.

(** ** Sample data

    The moment is 10 March 2024, noon; the habits are the ones of the
    scenarios: never completed, completed today, completed yesterday,
    completed three days ago, and a record whose [lastCompleted] is the
    empty string. *)

Module Sample.

Definition clock : Clock :=
  {| today := {| getFullYear := 2024; getMonth := 2; getDate := 10 |};
     toISOString := "2024-03-10T12:00:00.000Z";
     Date_now := 1710072000000 |}.

Definition fresh : Habit :=
  {| habit_id := "1709000000001"; habit_name := "Stretch"; streak := 0;
     lastCompleted := None; createdAt := "2024-02-27T02:13:20.001Z" |}.

Definition doneToday : Habit :=
  {| habit_id := "1709000000002"; habit_name := "Read"; streak := 4;
     lastCompleted := Some "2024-03-10T07:30:00.000Z";
     createdAt := "2024-02-27T02:13:20.002Z" |}.

Definition doneYesterday : Habit :=
  {| habit_id := "1709000000003"; habit_name := "Run"; streak := 3;
     lastCompleted := Some "2024-03-09T21:15:00.000Z";
     createdAt := "2024-02-27T02:13:20.003Z" |}.

Definition lapsed : Habit :=
  {| habit_id := "1709000000004"; habit_name := "Meditate"; streak := 5;
     lastCompleted := Some "2024-03-07T08:00:00.000Z";
     createdAt := "2024-02-27T02:13:20.004Z" |}.

Definition blank : Habit :=
  {| habit_id := "1709000000005"; habit_name := "Journal"; streak := 5;
     lastCompleted := Some ""; createdAt := "2024-02-27T02:13:20.005Z" |}.

(** A second habit whose name differs from [doneYesterday]'s by case
    only. *)
Definition sameNameOtherCase : Habit :=
  {| habit_id := "1709000000006"; habit_name := "run"; streak := 4;
     lastCompleted := None; createdAt := "2024-02-27T02:13:20.006Z" |}.

Definition world (hs : list Habit) (name : string)
    (stored : gmap string string) : World :=
  {| screen := home; habits := hs; newHabitName := name; storage := stored;
     getItem_rejects := false; setItem_rejects := false; console := [];
     alerts := [] |}.

End Sample.

(** ** Cards, notifications, launch and the wiring of the screens *)

(** What [HabitCard] renders of a habit: the id its two buttons pass to
    [onToggle] and [onDelete], the name, the streak line
    [🔥 {habit.streak} day{habit.streak !== 1 ? 's' : ''}], whether the
    check button carries the completed style, and its label. *)
Record HabitCardView := mkHabitCardView {
  card_habitId : string;
  card_habitName : string;
  card_streakText : string;
  card_completed : bool;
  card_checkText : string
}.

Section Cards.
Context (pf : Platform) (clk : Clock).

Definition HabitCard (habit : Habit) : HabitCardView :=
  let completedToday := isToday pf clk (lastCompleted habit) in
  {| card_habitId := habit_id habit;
     card_habitName := habit_name habit;
     card_streakText :=
       "🔥 " ++ pretty (streak habit) ++ " day"
       ++ (if bool_decide (streak habit ≠ 1) then "s" else "");
     card_completed := completedToday;
     card_checkText := if completedToday then "✓" else "○" |}.

End Cards.

(** [getMedal] of [LeaderboardCard]. *)
Definition getMedal (r : Z) : string :=
  if r =? 1 then "🥇"
  else if r =? 2 then "🥈"
  else if r =? 3 then "🥉"
  else pretty r.

(** The leaderboard screen: [leaderboardData.map((person, index) => ...)]
    hands each entry the rank [index + 1]; a card shows the medal of its
    rank. *)
Definition leaderboardRanks (pf : Platform) (habits : list Habit)
    : list (Z * Person) :=
  imap (fun index person => (Z.of_nat index + 1, person))
       (getLeaderboardData pf habits).

(** The notification service of the device: the status a permission request
    resolves to, the notifications currently scheduled, and which of its
    three calls reject. *)
Inductive PermissionStatus := granted | denied | undetermined.

#[global] Instance PermissionStatus_eq_dec : EqDecision PermissionStatus.
Proof. solve_decision. Defined.

Record NotificationRequest := mkNotificationRequest {
  content_title : string;
  content_body : string;
  trigger_hour : Z;
  trigger_minute : Z;
  trigger_repeats : bool
}.

Record NotificationCenter := mkNotificationCenter {
  permission : PermissionStatus;
  scheduled : list NotificationRequest;
  requestPermissions_rejects : bool;
  cancelAll_rejects : bool;
  schedule_rejects : bool
}.

(** A promise of the notification service: resolved with a value, or
    rejected. *)
Inductive outcome (A : Type) :=
| Resolved (a : A)
| Rejected.
Arguments Resolved {A} a.
Arguments Rejected {A}.

Definition Service (A : Type) : Type :=
  NotificationCenter -> NotificationCenter * outcome A.

Definition bindN {A B} (m : Service A) (k : A -> Service B) : Service B :=
  fun nc => match m nc with
            | (nc', Resolved a) => k a nc'
            | (nc', Rejected) => (nc', Rejected)
            end.

Definition requestPermissionsAsync : Service PermissionStatus := fun nc =>
  if requestPermissions_rejects nc then (nc, Rejected)
  else (nc, Resolved (permission nc)).

Definition cancelAllScheduledNotificationsAsync : Service unit := fun nc =>
  if cancelAll_rejects nc then (nc, Rejected)
  else ({| permission := permission nc; scheduled := [];
           requestPermissions_rejects := requestPermissions_rejects nc;
           cancelAll_rejects := cancelAll_rejects nc;
           schedule_rejects := schedule_rejects nc |}, Resolved tt).

Definition scheduleNotificationAsync (request : NotificationRequest)
    : Service unit := fun nc =>
  if schedule_rejects nc then (nc, Rejected)
  else ({| permission := permission nc;
           scheduled := (scheduled nc ++ [request])%list;
           requestPermissions_rejects := requestPermissions_rejects nc;
           cancelAll_rejects := cancelAll_rejects nc;
           schedule_rejects := schedule_rejects nc |}, Resolved tt).

Definition dailyReminder : NotificationRequest :=
  {| content_title := "StreakMate Reminder 🔥";
     content_body := "Don't break your streak! Mark today's habits.";
     trigger_hour := 21; trigger_minute := 0; trigger_repeats := true |}.

(** [setupNotifications]: the body of its [try], then the [catch] that
    logs. *)
Definition setupNotifications_try : Service unit :=
  bindN requestPermissionsAsync (fun status =>
    if bool_decide (status ≠ granted) then (fun nc => (nc, Resolved tt))
    else
      bindN cancelAllScheduledNotificationsAsync (fun _ =>
        scheduleNotificationAsync dailyReminder)).

Definition setupNotifications (nc : NotificationCenter) (w : World)
    : NotificationCenter * World :=
  match setupNotifications_try nc with
  | (nc', Resolved _) => (nc', w)
  | (nc', Rejected) => (nc', (console_error "Notification setup error:" w).1)
  end.

(** [initApp]: [await setupNotifications(); await loadHabits();] *)
Definition initApp (pf : Platform) (clk : Clock)
    (nc : NotificationCenter) (w : World) : NotificationCenter * World :=
  let '(nc', w') := setupNotifications nc w in
  (nc', (loadHabits pf clk w').1).

(** The state [App] starts in, over a given storage. *)
Definition initialWorld (stored : gmap string string)
    (getItem_fails setItem_fails : bool) : World :=
  {| screen := home; habits := []; newHabitName := ""; storage := stored;
     getItem_rejects := getItem_fails; setItem_rejects := setItem_fails;
     console := []; alerts := [] |}.

(** The controls the three screens render, each with the handler it is
    wired to: on the home screen a check button and a delete button per
    card and the two navigation buttons; on the add screen the text input,
    the submit button and the back button; on the leaderboard the back
    button. *)
Inductive Event :=
| PressCheck (id : string)
| PressDeleteButton (id : string) (choice : AlertChoice)
| PressAddHabit
| PressLeaderboard
| PressBack
| ChangeText (text : string)
| PressSubmit.

(** Which controls the screen rendered from [w] offers. *)
Definition offered (w : World) (e : Event) : Prop :=
  match screen w, e with
  | home, PressCheck id => id ∈ map habit_id (habits w)
  | home, PressDeleteButton id _ => id ∈ map habit_id (habits w)
  | home, PressAddHabit => True
  | home, PressLeaderboard => True
  | add, PressBack => True
  | add, ChangeText _ => True
  | add, PressSubmit => True
  | leaderboard, PressBack => True
  | _, _ => False
  end.

Definition handle (pf : Platform) (clk : Clock) (e : Event) : M unit :=
  match e with
  | PressCheck id => toggleHabit pf clk id
  | PressDeleteButton id choice => deleteHabit pf id choice
  | PressAddHabit => setScreen add
  | PressLeaderboard => setScreen leaderboard
  | PressBack => setScreen home
  | ChangeText text => setNewHabitName text
  | PressSubmit => addHabit pf clk
  end.

(** A session: the user operates, one after the other and each at its own
    moment, controls that the current screen offers. *)
Inductive session (pf : Platform) : World -> World -> Prop :=
| session_start (w : World) : session pf w w
| session_step (w0 w : World) (clk : Clock) (e : Event) :
    session pf w0 w → offered w e →
    session pf w0 (handle pf clk e w).1.

(** The stored text is the serialization of the collection in memory, or
    nothing was ever stored and the collection is empty. *)
Definition persisted (pf : Platform) (w : World) : Prop :=
  storage w !! HABITS_KEY = Some (JSON_stringify pf (habits w))
  ∨ (storage w !! HABITS_KEY = None ∧ habits w = []).

(** A first session on a fresh installation: open the add screen, type a
    name, submit it, and check the new habit off. *)
Module Scenario.

Definition w0 : World := initialWorld ∅ false false.
Definition w1 : World :=
  (handle Device.platform Sample.clock PressAddHabit w0).1.
Definition w2 : World :=
  (handle Device.platform Sample.clock (ChangeText " Walk ") w1).1.
Definition w3 : World :=
  (handle Device.platform Sample.clock PressSubmit w2).1.
Definition w4 : World :=
  (handle Device.platform Sample.clock (PressCheck "1710072000000") w3).1.

End Scenario.

(** * Properties *)

(** ** Streak engine: the lapse reset *)

Section EngineFacts.
Context (pf : Platform) (clk : Clock).

Lemma falsy_false_iff (l : option string) :
  falsy l = false ↔ ∃ s, l = Some s ∧ s ≠ "".
Proof.
  destruct l as [s|]; simpl.
  - rewrite bool_decide_eq_false. split.
    + intros Hs. by exists s.
    + by intros (s' & [= <-] & Hs).
  - split; [done | by intros (s & ? & _)].
Qed.

Lemma sameCalendarDay_eq (a b : LocalDate) :
  sameCalendarDay a b = true ↔ a = b.
Proof.
  unfold sameCalendarDay. rewrite !andb_true_iff, !Z.eqb_eq.
  destruct a, b; simpl. split.
  - by intros [[-> ->] ->].
  - by intros [= -> -> ->].
Qed.

(** What the two predicates decide: the text is a non-empty string that
    parses to a date on the calendar day of the current moment,
    respectively on the day before it. *)
Lemma isToday_true_iff (l : option string) :
  isToday pf clk l = true
  ↔ ∃ s, l = Some s ∧ s ≠ "" ∧ Date_parse pf s = Some (today clk).
Proof.
  unfold isToday. destruct (falsy l) eqn:Hf.
  - split; [done |]. intros (s & -> & Hs & _). simpl in Hf.
    by apply bool_decide_eq_true in Hf.
  - apply falsy_false_iff in Hf as (s & -> & Hs). simpl.
    destruct (Date_parse pf s) as [d|] eqn:Hp.
    + rewrite sameCalendarDay_eq. split.
      * intros ->. by exists s.
      * intros (s' & [= <-] & _ & Hd). congruence.
    + split; [done |]. intros (s' & [= <-] & _ & Hd). congruence.
Qed.

Lemma isYesterday_true_iff (l : option string) :
  isYesterday pf clk l = true
  ↔ ∃ s, l = Some s ∧ s ≠ ""
         ∧ Date_parse pf s = Some (setDate_previous (today clk)).
Proof.
  unfold isYesterday. destruct (falsy l) eqn:Hf.
  - split; [done |]. intros (s & -> & Hs & _). simpl in Hf.
    by apply bool_decide_eq_true in Hf.
  - apply falsy_false_iff in Hf as (s & -> & Hs). simpl.
    destruct (Date_parse pf s) as [d|] eqn:Hp.
    + rewrite sameCalendarDay_eq. split.
      * intros ->. by exists s.
      * intros (s' & [= <-] & _ & Hd). congruence.
    + split; [done |]. intros (s' & [= <-] & _ & Hd). congruence.
Qed.

Lemma isToday_falsy (l : option string) :
  falsy l = true → isToday pf clk l = false.
Proof. unfold isToday. by intros ->. Qed.

Lemma isYesterday_falsy (l : option string) :
  falsy l = true → isYesterday pf clk l = false.
Proof. unfold isYesterday. by intros ->. Qed.

Lemma resetStreak_fields (habit : Habit) :
  habit_id (resetStreak pf clk habit) = habit_id habit
  ∧ habit_name (resetStreak pf clk habit) = habit_name habit
  ∧ lastCompleted (resetStreak pf clk habit) = lastCompleted habit
  ∧ createdAt (resetStreak pf clk habit) = createdAt habit.
Proof.
  unfold resetStreak.
  destruct (falsy (lastCompleted habit)); [done |].
  by destruct (negb (isToday pf clk (lastCompleted habit))
               && negb (isYesterday pf clk (lastCompleted habit))).
Qed.

Lemma resetStreak_falsy (habit : Habit) :
  falsy (lastCompleted habit) = true → resetStreak pf clk habit = habit.
Proof. unfold resetStreak. by intros ->. Qed.

Lemma resetStreak_recent (habit : Habit) :
  isToday pf clk (lastCompleted habit)
  || isYesterday pf clk (lastCompleted habit) = true →
  resetStreak pf clk habit = habit.
Proof.
  unfold resetStreak. intros Hrecent.
  destruct (falsy (lastCompleted habit)); [done |].
  destruct (isToday pf clk (lastCompleted habit)),
           (isYesterday pf clk (lastCompleted habit)); done.
Qed.

Lemma resetStreak_lapsed (habit : Habit) :
  falsy (lastCompleted habit) = false →
  isToday pf clk (lastCompleted habit) = false →
  isYesterday pf clk (lastCompleted habit) = false →
  resetStreak pf clk habit = with_streak habit 0.
Proof. unfold resetStreak. by intros -> -> ->. Qed.

Lemma resetStreak_idempotent (habit : Habit) :
  resetStreak pf clk (resetStreak pf clk habit) = resetStreak pf clk habit.
Proof.
  unfold resetStreak at 2 3.
  destruct (falsy (lastCompleted habit)) eqn:Hf.
  { by apply resetStreak_falsy. }
  destruct (isToday pf clk (lastCompleted habit)) eqn:Ht; simpl.
  { apply resetStreak_recent. by rewrite Ht. }
  destruct (isYesterday pf clk (lastCompleted habit)) eqn:Hy; simpl.
  { apply resetStreak_recent. by rewrite Hy, orb_true_r. }
  by rewrite resetStreak_lapsed.
Qed.

Lemma resetStreaksIfNeeded_idempotent (habits : list Habit) :
  resetStreaksIfNeeded pf clk (resetStreaksIfNeeded pf clk habits)
  = resetStreaksIfNeeded pf clk habits.
Proof.
  unfold resetStreaksIfNeeded. induction habits as [|h hs IH]; simpl.
  - done.
  - by rewrite resetStreak_idempotent, IH.
Qed.

Lemma resetStreaksIfNeeded_lookup (habits : list Habit) (i : nat) :
  resetStreaksIfNeeded pf clk habits !! i
  = resetStreak pf clk <$> habits !! i.
Proof. unfold resetStreaksIfNeeded. apply list_lookup_fmap. Qed.

(** The reference-level function allocates and never overwrites: one
    element. *)
Lemma resetStreak_ref_sound (heap : list Habit) (r : nat) (habit : Habit) :
  heap !! r = Some habit →
  ∃ heap' r', resetStreak_ref pf clk heap r = Some (heap', r')
    ∧ heap `prefix_of` heap'
    ∧ heap' !! r' = Some (resetStreak pf clk habit).
Proof.
  intros Hr. unfold resetStreak_ref, resetStreak. rewrite Hr. simpl.
  destruct (falsy (lastCompleted habit)).
  { exists heap, r. done. }
  destruct (negb (isToday pf clk (lastCompleted habit))
            && negb (isYesterday pf clk (lastCompleted habit))).
  - exists (heap ++ [with_streak habit 0])%list, (length heap).
    split_and!; [done | by apply prefix_app_r |].
    by rewrite lookup_app_r, Nat.sub_diag.
  - exists heap, r. done.
Qed.

Lemma deref_prefix (heap heap' : list Habit) (refs : list nat)
    (hs : list Habit) :
  heap `prefix_of` heap' → deref heap refs = Some hs →
  deref heap' refs = Some hs.
Proof.
  unfold deref. intros Hpre. rewrite !mapM_Some. intros Hall.
  eapply Forall2_impl; [exact Hall |].
  intros r h Hr. simpl in Hr. exact (prefix_lookup_Some _ _ _ _ Hr Hpre).
Qed.

Lemma resetStreaksIfNeeded_refs_sound (refs : list nat) :
  ∀ (heap : list Habit) (hs : list Habit),
    deref heap refs = Some hs →
    ∃ heap' refs',
      resetStreaksIfNeeded_refs pf clk heap refs = Some (heap', refs')
      ∧ heap `prefix_of` heap'
      ∧ deref heap' refs' = Some (resetStreaksIfNeeded pf clk hs).
Proof.
  induction refs as [|r rest IH]; intros heap hs Hd.
  - injection Hd as <-. exists heap, []. done.
  - unfold deref in Hd. apply mapM_Some in Hd.
    apply Forall2_cons_inv_l in Hd as (h & hs' & Hr & Hrest & ->).
    destruct (resetStreak_ref_sound heap r h Hr) as (heap1 & r' & E1 & P1 & L1).
    apply mapM_Some in Hrest.
    destruct (IH heap1 hs' (deref_prefix _ _ _ _ P1 Hrest))
      as (heap2 & rest' & E2 & P2 & D2).
    exists heap2, (r' :: rest'). simpl. rewrite E1. simpl. rewrite E2. simpl.
    split_and!; [done | by trans heap1 |].
    unfold deref in *. simpl.
    rewrite (prefix_lookup_Some _ _ _ _ L1 P2). simpl. by rewrite D2.
Qed.

End EngineFacts.

(** [setDate(getDate() - 1)] across a month end, a leap day and a year
    end (months are 0-based). *)
Example setDate_previous_samples :
  setDate_previous {| getFullYear := 2024; getMonth := 2; getDate := 10 |}
  = {| getFullYear := 2024; getMonth := 2; getDate := 9 |}
  ∧ setDate_previous {| getFullYear := 2024; getMonth := 2; getDate := 1 |}
    = {| getFullYear := 2024; getMonth := 1; getDate := 29 |}
  ∧ setDate_previous {| getFullYear := 2023; getMonth := 2; getDate := 1 |}
    = {| getFullYear := 2023; getMonth := 1; getDate := 28 |}
  ∧ setDate_previous {| getFullYear := 2024; getMonth := 0; getDate := 1 |}
    = {| getFullYear := 2023; getMonth := 11; getDate := 31 |}.
Proof. split_and!; reflexivity. Qed.

(** The scenario "streak 5, last completed three days ago": the reset
    zeroes the streak and keeps the timestamp; the other sample habits come
    back as they were. *)
Example resetStreaksIfNeeded_scenario :
  resetStreaksIfNeeded Device.platform Sample.clock
    [Sample.fresh; Sample.doneToday; Sample.doneYesterday; Sample.lapsed]
  = [Sample.fresh; Sample.doneToday; Sample.doneYesterday;
     with_streak Sample.lapsed 0].
Proof. vm_compute. reflexivity. Qed.

(** C1, as amended.  For every habit list [habits] and the list [result]
    that [resetStreaksIfNeeded] returns at a given moment: every habit of
    [result] whose [lastCompleted] is a non-empty string that reads neither
    as a date of today nor as a date of yesterday has streak 0; [result] has the length of [habits],
    and position by position the fields [id], [name], [lastCompleted] and
    [createdAt] are those of the input, a habit whose [lastCompleted] is
    [null] (or the empty string) being returned unchanged; and on the heap
    the function only allocates: the objects of the input array are the same
    after the call, and the returned array reads as [result]. *)
Theorem resetStreaksIfNeeded_lapse_reset
    (pf : Platform) (clk : Clock) (habits : list Habit) :
  let result := resetStreaksIfNeeded pf clk habits in
  (∀ h s, h ∈ result → lastCompleted h = Some s → s ≠ "" →
     Date_parse pf s ≠ Some (today clk) →
     Date_parse pf s ≠ Some (setDate_previous (today clk)) →
     streak h = 0)
  ∧ length result = length habits
  ∧ (∀ i h, habits !! i = Some h →
       ∃ h', result !! i = Some h'
         ∧ habit_id h' = habit_id h ∧ habit_name h' = habit_name h
         ∧ lastCompleted h' = lastCompleted h ∧ createdAt h' = createdAt h
         ∧ (lastCompleted h = None ∨ lastCompleted h = Some "" → h' = h))
  ∧ (∀ heap refs, deref heap refs = Some habits →
       ∃ heap' refs',
         resetStreaksIfNeeded_refs pf clk heap refs = Some (heap', refs')
         ∧ deref heap' refs' = Some result
         ∧ heap `prefix_of` heap'
         ∧ deref heap' refs = Some habits).
Proof.
  intros result. subst result. split_and!.
  - intros h s Hin Hl Hs Ht Hy.
    unfold resetStreaksIfNeeded in Hin.
    apply list_elem_of_fmap in Hin as (h0 & -> & _).
    destruct (resetStreak_fields pf clk h0) as (_ & _ & Hlc & _).
    rewrite Hlc in Hl.
    rewrite resetStreak_lapsed; [done | | |].
    + apply falsy_false_iff. by exists s.
    + apply not_true_is_false. rewrite isToday_true_iff, Hl.
      by intros (s' & [= <-] & _ & ?).
    + apply not_true_is_false. rewrite isYesterday_true_iff, Hl.
      by intros (s' & [= <-] & _ & ?).
  - unfold resetStreaksIfNeeded. apply length_map.
  - intros i h Hi. exists (resetStreak pf clk h).
    rewrite resetStreaksIfNeeded_lookup, Hi.
    destruct (resetStreak_fields pf clk h) as (? & ? & ? & ?).
    split_and!; try done.
    intros [Hnull | Hempty]; apply resetStreak_falsy.
    + by rewrite Hnull.
    + by rewrite Hempty.
  - intros heap refs Hd.
    destruct (resetStreaksIfNeeded_refs_sound pf clk refs heap habits Hd)
      as (heap' & refs' & E & P & D).
    exists heap', refs'. split_and!; try done.
    by eapply deref_prefix.
Qed.

(** C1 as the claim words it fails on a habit whose [lastCompleted] is the
    empty string: that value is not [null], it is neither today nor
    yesterday, and the guard [!habit.lastCompleted] returns the habit with
    its streak of 5. *)
Lemma resetStreaksIfNeeded_empty_lastCompleted_keeps_streak :
  ∃ h, h ∈ resetStreaksIfNeeded Device.platform Sample.clock [Sample.blank]
    ∧ lastCompleted h = Some ""
    ∧ Date_parse Device.platform "" = None
    ∧ isToday Device.platform Sample.clock (lastCompleted h) = false
    ∧ isYesterday Device.platform Sample.clock (lastCompleted h) = false
    ∧ streak h = 5.
Proof.
  exists Sample.blank. split_and!; try reflexivity.
  vm_compute. apply list_elem_of_here.
Qed.

(** ** Streak engine: toggling *)

Section ToggleFacts.
Context (pf : Platform) (clk : Clock).

Lemma toggleCompletion_fields (habit : Habit) :
  habit_id (toggleCompletion pf clk habit) = habit_id habit
  ∧ habit_name (toggleCompletion pf clk habit) = habit_name habit
  ∧ createdAt (toggleCompletion pf clk habit) = createdAt habit.
Proof.
  unfold toggleCompletion.
  by destruct (isToday pf clk (lastCompleted habit)).
Qed.

Lemma toggleCompletion_undo (habit : Habit) :
  isToday pf clk (lastCompleted habit) = true →
  toggleCompletion pf clk habit
  = with_streak_lastCompleted habit (Z.max 0 (streak habit - 1)) None.
Proof. unfold toggleCompletion. by intros ->. Qed.

Lemma toggleCompletion_complete (habit : Habit) :
  isToday pf clk (lastCompleted habit) = false →
  toggleCompletion pf clk habit
  = with_streak_lastCompleted habit (streak habit + 1)
      (Some (toISOString clk)).
Proof. unfold toggleCompletion. by intros ->. Qed.

Lemma isToday_None : isToday pf clk None = false.
Proof. done. Qed.

Lemma toggleCompletion_nonneg (habit : Habit) :
  0 ≤ streak habit → 0 ≤ streak (toggleCompletion pf clk habit).
Proof.
  intros Hs. unfold toggleCompletion.
  destruct (isToday pf clk (lastCompleted habit)); simpl; lia.
Qed.

Lemma toggleIfMatch_other (id : string) (habit : Habit) :
  habit_id habit ≠ id → toggleIfMatch pf clk id habit = habit.
Proof. unfold toggleIfMatch. intros Hne. by rewrite bool_decide_eq_false_2. Qed.

Lemma toggleIfMatch_same (id : string) (habit : Habit) :
  habit_id habit = id →
  toggleIfMatch pf clk id habit = toggleCompletion pf clk habit.
Proof. unfold toggleIfMatch. intros He. by rewrite bool_decide_eq_true_2. Qed.

End ToggleFacts.

(** ** Habit store: what each handler does to the world *)

Ltac run_js :=
  unfold try_catch, bind, ret, throw, getHabits, getNewHabitName, setHabits,
    setNewHabitName, setScreen, console_error, Alert_alert,
    AsyncStorage_getItem, AsyncStorage_setItem; simpl.

Section StoreFacts.
Context (pf : Platform) (clk : Clock).

(** [saveHabits] always returns; it writes unless the storage rejects, in
    which case it logs. *)
Lemma saveHabits_run (hs : list Habit) (w : World) :
  ∃ w', saveHabits pf hs w = (w', Ok tt)
    ∧ screen w' = screen w ∧ habits w' = habits w
    ∧ newHabitName w' = newHabitName w ∧ alerts w' = alerts w
    ∧ getItem_rejects w' = getItem_rejects w
    ∧ setItem_rejects w' = setItem_rejects w
    ∧ storage w'
      = (if setItem_rejects w then storage w
         else <[HABITS_KEY := JSON_stringify pf hs]> (storage w))
    ∧ console w'
      = (if setItem_rejects w then "Save habits error:" :: console w
         else console w).
Proof.
  unfold saveHabits. run_js.
  destruct (setItem_rejects w) eqn:Hrej; simpl; eexists; by split.
Qed.

Lemma toggleHabit_run (id : string) (w : World) :
  ∃ w', toggleHabit pf clk id w = (w', Ok tt)
    ∧ habits w' = map (toggleIfMatch pf clk id) (habits w)
    ∧ alerts w' = alerts w
    ∧ storage w'
      = (if setItem_rejects w then storage w
         else <[HABITS_KEY :=
                  JSON_stringify pf (map (toggleIfMatch pf clk id) (habits w))]>
                (storage w)).
Proof.
  unfold toggleHabit. run_js.
  set (updated := map (toggleIfMatch pf clk id) (habits w)).
  match goal with |- context [saveHabits pf updated ?w1] =>
    destruct (saveHabits_run updated w1)
      as (w' & -> & _ & Hh & _ & Ha & _ & _ & Hst & _)
  end.
  exists w'. simpl in *. done.
Qed.

Lemma deleteHabit_run (id : string) (choice : AlertChoice) (w : World) :
  ∃ w', deleteHabit pf id choice w = (w', Ok tt)
    ∧ habits w'
      = match choice with
        | PressDelete => filter (fun h => habit_id h ≠ id) (habits w)
        | PressCancel | Dismissed => habits w
        end
    ∧ alerts w' = ("Delete Habit", "Are you sure?") :: alerts w
    ∧ (choice ≠ PressDelete → storage w' = storage w).
Proof.
  unfold deleteHabit. run_js. destruct choice; simpl.
  - eexists; split_and!; done.
  - match goal with |- context [saveHabits pf ?hs ?w1] =>
      destruct (saveHabits_run hs w1)
        as (w' & -> & _ & Hh & _ & Ha & _)
    end.
    exists w'. simpl in *. done.
  - eexists; split_and!; done.
Qed.

End StoreFacts.

(** ** Toggling: undo, non-negative streaks, frame *)

(** The scenario "created with streak 0, never completed; toggle; toggle
    again the same day". *)
Example toggleCompletion_scenario :
  toggleCompletion Device.platform Sample.clock Sample.fresh
  = with_streak_lastCompleted Sample.fresh 1 (Some "2024-03-10T12:00:00.000Z")
  ∧ toggleCompletion Device.platform Sample.clock
      (toggleCompletion Device.platform Sample.clock Sample.fresh)
    = Sample.fresh.
Proof. split; reflexivity. Qed.

(** C2, as amended.  At a fixed moment whose own timestamp reads as today,
    and for a habit with streak ≥ 0, two toggles in succession restore the
    streak and leave [lastCompleted] null whenever the habit was not already
    completed today, so both fields return to their original values when
    [lastCompleted] was null to begin with; when the habit was already
    completed today and its streak is ≥ 1, two toggles restore the streak and
    set [lastCompleted] to the current timestamp.  The other fields never
    change. *)
Theorem toggleCompletion_twice
    (pf : Platform) (clk : Clock) (habit : Habit) :
  isToday pf clk (Some (toISOString clk)) = true →
  0 ≤ streak habit →
  let twice := toggleCompletion pf clk (toggleCompletion pf clk habit) in
  (isToday pf clk (lastCompleted habit) = false →
     streak twice = streak habit ∧ lastCompleted twice = None)
  ∧ (lastCompleted habit = None → twice = habit)
  ∧ (isToday pf clk (lastCompleted habit) = true → 1 ≤ streak habit →
     streak twice = streak habit
     ∧ lastCompleted twice = Some (toISOString clk))
  ∧ habit_id twice = habit_id habit
  ∧ habit_name twice = habit_name habit
  ∧ createdAt twice = createdAt habit.
Proof.
  intros Hnow Hs twice. subst twice.
  assert (Hnot : isToday pf clk (lastCompleted habit) = false →
            toggleCompletion pf clk (toggleCompletion pf clk habit)
            = with_streak_lastCompleted habit (streak habit) None).
  { intros Ht. rewrite (toggleCompletion_complete pf clk habit Ht).
    rewrite toggleCompletion_undo by exact Hnow.
    unfold with_streak_lastCompleted. simpl. f_equal. lia. }
  split_and!.
  - intros Ht. by rewrite (Hnot Ht).
  - intros Hnull. rewrite Hnot.
    + destruct habit. simpl in *. by subst.
    + by rewrite Hnull.
  - intros Ht Hone. rewrite (toggleCompletion_undo pf clk habit Ht).
    rewrite toggleCompletion_complete by done. simpl. split; [lia | done].
  - destruct (toggleCompletion_fields pf clk (toggleCompletion pf clk habit))
      as (-> & _ & _).
    by destruct (toggleCompletion_fields pf clk habit) as (-> & _ & _).
  - destruct (toggleCompletion_fields pf clk (toggleCompletion pf clk habit))
      as (_ & -> & _).
    by destruct (toggleCompletion_fields pf clk habit) as (_ & -> & _).
  - destruct (toggleCompletion_fields pf clk (toggleCompletion pf clk habit))
      as (_ & _ & ->).
    by destruct (toggleCompletion_fields pf clk habit) as (_ & _ & ->).
Qed.

(** The theorem at the never-completed sample habit: two toggles give the
    habit back. *)
Lemma toggleCompletion_twice_witness :
  isToday Device.platform Sample.clock (Some (toISOString Sample.clock)) = true
  ∧ 0 ≤ streak Sample.fresh
  ∧ toggleCompletion Device.platform Sample.clock
      (toggleCompletion Device.platform Sample.clock Sample.fresh)
    = Sample.fresh.
Proof.
  assert (Hnow : isToday Device.platform Sample.clock
                   (Some (toISOString Sample.clock)) = true)
    by reflexivity.
  assert (Hs : 0 ≤ streak Sample.fresh) by (simpl; lia).
  split; [exact Hnow |]. split; [exact Hs |].
  exact (proj1 (proj2 (toggleCompletion_twice Device.platform Sample.clock
                         Sample.fresh Hnow Hs)) eq_refl).
Defined.

(** C2 as the claim words it fails: for the habit completed yesterday, two
    toggles at one moment end with [lastCompleted] null, and for the habit
    completed earlier today they end with the current timestamp; neither is
    the original value. *)
Lemma toggleCompletion_twice_changes_lastCompleted :
  isToday Device.platform Sample.clock (Some (toISOString Sample.clock)) = true
  ∧ lastCompleted Sample.doneYesterday = Some "2024-03-09T21:15:00.000Z"
  ∧ lastCompleted
      (toggleCompletion Device.platform Sample.clock
         (toggleCompletion Device.platform Sample.clock Sample.doneYesterday))
    = None
  ∧ lastCompleted Sample.doneToday = Some "2024-03-10T07:30:00.000Z"
  ∧ lastCompleted
      (toggleCompletion Device.platform Sample.clock
         (toggleCompletion Device.platform Sample.clock Sample.doneToday))
    = Some "2024-03-10T12:00:00.000Z".
Proof. split_and!; reflexivity. Qed.

(** C3.  If every habit of the collection has streak ≥ 0, so has every habit
    of the collection that [toggleHabit] leaves; the undo branch yields a
    streak ≥ 0 whatever the streak it starts from, and the completion branch
    keeps a non-negative streak non-negative. *)
Theorem toggleHabit_streak_nonneg
    (pf : Platform) (clk : Clock) (id : string) (w : World) :
  Forall (fun h => 0 ≤ streak h) (habits w) →
  Forall (fun h => 0 ≤ streak h) (habits (toggleHabit pf clk id w).1)
  ∧ (∀ h, isToday pf clk (lastCompleted h) = true →
       0 ≤ streak (toggleCompletion pf clk h))
  ∧ (∀ h, 0 ≤ streak h → 0 ≤ streak (toggleCompletion pf clk h)).
Proof.
  intros Hall. split_and!.
  - destruct (toggleHabit_run pf clk id w) as (w' & -> & Hh & _). simpl.
    rewrite Hh. apply Forall_fmap. eapply Forall_impl; [exact Hall |].
    intros h Hpos. simpl. unfold toggleIfMatch.
    case_bool_decide; [by apply toggleCompletion_nonneg | done].
  - intros h Ht. rewrite (toggleCompletion_undo pf clk h Ht). simpl. lia.
  - intros h. apply toggleCompletion_nonneg.
Qed.

(** The theorem at a collection of two habits, undoing the one completed
    today. *)
Lemma toggleHabit_streak_nonneg_witness :
  Forall (fun h => 0 ≤ streak h)
    (habits (toggleHabit Device.platform Sample.clock
               (habit_id Sample.doneToday)
               (Sample.world [Sample.fresh; Sample.doneToday] "" ∅)).1).
Proof.
  apply (toggleHabit_streak_nonneg Device.platform Sample.clock
           (habit_id Sample.doneToday)
           (Sample.world [Sample.fresh; Sample.doneToday] "" ∅)).
  simpl. repeat constructor; simpl; lia.
Defined.

(** C10.  [toggleHabit(id)] returns normally and leaves a collection of the
    same length in which every position holds the habit it held before,
    unchanged, when that habit's id differs from [id], and the toggled habit
    otherwise; when no habit has the id, the collection is the one it
    was. *)
Theorem toggleHabit_frame
    (pf : Platform) (clk : Clock) (id : string) (w : World) :
  let w' := (toggleHabit pf clk id w).1 in
  (toggleHabit pf clk id w).2 = Ok tt
  ∧ length (habits w') = length (habits w)
  ∧ (∀ i h, habits w !! i = Some h → habit_id h ≠ id →
       habits w' !! i = Some h)
  ∧ (∀ i h, habits w !! i = Some h → habit_id h = id →
       habits w' !! i = Some (toggleCompletion pf clk h))
  ∧ ((∀ h, h ∈ habits w → habit_id h ≠ id) → habits w' = habits w).
Proof.
  intros w'. subst w'.
  destruct (toggleHabit_run pf clk id w) as (w' & -> & Hh & _). simpl.
  rewrite Hh. split_and!.
  - done.
  - apply length_map.
  - intros i h Hi Hne.
    rewrite list_lookup_fmap, Hi. simpl. by rewrite toggleIfMatch_other.
  - intros i h Hi He.
    rewrite list_lookup_fmap, Hi. simpl. by rewrite toggleIfMatch_same.
  - generalize (habits w). intros hs Hnone.
    induction hs as [|h hs IH]; simpl; [done |].
    rewrite toggleIfMatch_other by (apply Hnone, list_elem_of_here).
    f_equal. apply IH. intros h' Hin. by apply Hnone, list_elem_of_further.
Qed.

(** Toggling an id nobody has, on the sample collection. *)
Example toggleHabit_unknown_id :
  habits (toggleHabit Device.platform Sample.clock "no such id"
            (Sample.world [Sample.fresh; Sample.doneToday] "" ∅)).1
  = [Sample.fresh; Sample.doneToday].
Proof. reflexivity. Qed.

(** ** Deleting *)

(** C9, as amended.  [deleteHabit(id)] opens the confirmation dialog and
    returns normally.  When [id] matches no habit the collection is left as
    it was, whichever way the dialog is answered.  When the user presses
    "Delete", the collection becomes the habits whose id differs from [id],
    in their original order: a habit is in it exactly when it was there
    before and has another id.  When the user cancels or dismisses the
    dialog, nothing is removed and nothing is written. *)
Theorem deleteHabit_removes_exactly
    (pf : Platform) (id : string) (choice : AlertChoice) (w : World) :
  let w' := (deleteHabit pf id choice w).1 in
  (deleteHabit pf id choice w).2 = Ok tt
  ∧ ((∀ h, h ∈ habits w → habit_id h ≠ id) → habits w' = habits w)
  ∧ (choice = PressDelete →
       habits w' = filter (fun h => habit_id h ≠ id) (habits w)
       ∧ (∀ h, h ∈ habits w' ↔ h ∈ habits w ∧ habit_id h ≠ id)
       ∧ habits w' `sublist_of` habits w)
  ∧ (choice ≠ PressDelete →
       habits w' = habits w ∧ storage w' = storage w).
Proof.
  intros w'. subst w'.
  destruct (deleteHabit_run pf id choice w) as (w' & -> & Hh & _ & Hst).
  simpl. split_and!.
  - done.
  - intros Hnone. rewrite Hh. destruct choice; try done.
    generalize (habits w), Hnone. clear. intros hs Hnone.
    induction hs as [|h hs IH]; [done |].
    rewrite filter_cons_True by apply Hnone, list_elem_of_here.
    f_equal. apply IH. intros h' Hin. by apply Hnone, list_elem_of_further.
  - intros ->. rewrite Hh. split_and!.
    + done.
    + intros h. rewrite list_elem_of_filter. tauto.
    + apply sublist_filter.
  - intros Hchoice. split; [| by apply Hst].
    rewrite Hh. by destruct choice.
Qed.

(** C9 as the claim words it fails when the dialog is cancelled: the habit
    whose id was passed is still in the collection. *)
Lemma deleteHabit_cancelled_removes_nothing :
  Sample.fresh
  ∈ habits (deleteHabit Device.platform (habit_id Sample.fresh) PressCancel
              (Sample.world [Sample.fresh; Sample.doneToday] "" ∅)).1.
Proof. vm_compute. apply list_elem_of_here. Qed.

(** Confirmed deletions on the sample collection: a present id, and an id
    nobody has. *)
Example deleteHabit_scenarios :
  habits (deleteHabit Device.platform (habit_id Sample.fresh) PressDelete
            (Sample.world [Sample.fresh; Sample.doneToday] "" ∅)).1
  = [Sample.doneToday]
  ∧ habits (deleteHabit Device.platform "no such id" PressDelete
              (Sample.world [Sample.fresh; Sample.doneToday] "" ∅)).1
    = [Sample.fresh; Sample.doneToday].
Proof. split; reflexivity. Qed.

(** ** Adding: [trim] and the validation of the name *)

Lemma append_cons (c : ascii) (s t : string) :
  String c s ++ t = String c (s ++ t).
Proof. reflexivity. Qed.

Lemma append_nil_l (s : string) : "" ++ s = s.
Proof. reflexivity. Qed.

Lemma append_assoc (s t u : string) : (s ++ t) ++ u = s ++ (t ++ u).
Proof.
  induction s as [|c s IH]; [done |].
  by rewrite !append_cons, IH.
Qed.

(** The cases of the first code point of [s]: one, two or three bytes of
    white space, or something else. *)
Ltac by_first_code_point s :=
  let b1 := fresh "b1" in let b2 := fresh "b2" in let b3 := fresh "b3" in
  let s1 := fresh "s1" in let s2 := fresh "s2" in let s3 := fresh "s3" in
  destruct s as [|b1 s1]; simpl;
  [ | destruct (isWhiteSpace1 b1) eqn:?;
      [ | destruct s1 as [|b2 s2];
          [ | destruct (isWhiteSpace2 b1 b2) eqn:?;
              [ | destruct s2 as [|b3 s3];
                  [ | destruct (isWhiteSpace3 b1 b2 b3) eqn:? ] ] ] ] ];
  try done.

Lemma trimStart_unfold (s : string) :
  trimStart s
  = match stripWhiteSpace s with Some rest => trimStart rest | None => s end.
Proof. by_first_code_point s. Qed.

Lemma whitespaceOnly_unfold (s : string) :
  whitespaceOnly s
  = match s with
    | "" => true
    | _ => match stripWhiteSpace s with
           | Some rest => whitespaceOnly rest
           | None => false
           end
    end.
Proof. by_first_code_point s. Qed.

Lemma stripWhiteSpace_shorter (s rest : string) :
  stripWhiteSpace s = Some rest → (String.length rest < String.length s)%nat.
Proof. by_first_code_point s; intros [= <-]; simpl; lia. Qed.

(** What [stripWhiteSpace] removes is one to three bytes of white space. *)
Lemma stripWhiteSpace_split (s rest : string) :
  stripWhiteSpace s = Some rest →
  ∃ blank, s = blank ++ rest ∧ blank ≠ "" ∧ whitespaceOnly blank = true.
Proof.
  destruct s as [|b1 s1]; [done |]. simpl.
  destruct (isWhiteSpace1 b1) eqn:H1.
  { intros [= <-]. exists (String b1 ""). simpl. by rewrite H1. }
  destruct s1 as [|b2 s2]; [done |].
  destruct (isWhiteSpace2 b1 b2) eqn:H2.
  { intros [= <-]. exists (String b1 (String b2 "")). simpl.
    by rewrite H1, H2. }
  destruct s2 as [|b3 s3]; [done |].
  destruct (isWhiteSpace3 b1 b2 b3) eqn:H3; [| done].
  intros [= <-]. exists (String b1 (String b2 (String b3 ""))). simpl.
  by rewrite H1, H2, H3.
Qed.

Lemma stripWhiteSpace_app (s rest t : string) :
  stripWhiteSpace s = Some rest → stripWhiteSpace (s ++ t) = Some (rest ++ t).
Proof.
  destruct s as [|b1 s1]; [done |]. rewrite append_cons. simpl.
  destruct (isWhiteSpace1 b1); [by intros [= <-] |].
  destruct s1 as [|b2 s2]; [done |]. rewrite append_cons.
  destruct (isWhiteSpace2 b1 b2); [by intros [= <-] |].
  destruct s2 as [|b3 s3]; [done |]. rewrite append_cons.
  destruct (isWhiteSpace3 b1 b2 b3); [by intros [= <-] | done].
Qed.

Lemma stripWhiteSpace_prefix (s t : string) :
  stripWhiteSpace (s ++ t) = None → stripWhiteSpace s = None.
Proof.
  destruct (stripWhiteSpace s) as [rest|] eqn:Hs; [| done].
  by rewrite (stripWhiteSpace_app _ _ _ Hs).
Qed.

(** Induction along the code points of white space a string starts with. *)
Lemma whiteSpace_ind (P : string → Prop) :
  (∀ s, (∀ rest, stripWhiteSpace s = Some rest → P rest) → P s) →
  ∀ s, P s.
Proof.
  intros Hstep s.
  remember (String.length s) as n eqn:Hn.
  revert s Hn. induction (lt_wf n) as [n _ IH]. intros s ->.
  apply Hstep. intros rest Hrest.
  apply (IH (String.length rest)); [| done].
  by apply stripWhiteSpace_shorter.
Qed.

(** [trimStart] stops at a string that does not start with white space. *)
Lemma stripWhiteSpace_trimStart (s : string) :
  stripWhiteSpace (trimStart s) = None.
Proof.
  induction s as [s IH] using whiteSpace_ind.
  rewrite trimStart_unfold.
  destruct (stripWhiteSpace s) as [rest|] eqn:Hs; [by apply IH | done].
Qed.

Lemma trimStart_fixed (s : string) :
  stripWhiteSpace s = None → trimStart s = s.
Proof. intros Hs. by rewrite trimStart_unfold, Hs. Qed.

Lemma whitespaceOnly_trimStart (s : string) :
  whitespaceOnly (trimStart s) = whitespaceOnly s.
Proof.
  induction s as [s IH] using whiteSpace_ind.
  rewrite trimStart_unfold, (whitespaceOnly_unfold s).
  destruct (stripWhiteSpace s) as [rest|] eqn:Hs.
  - rewrite IH by done. by destruct s.
  - rewrite whitespaceOnly_unfold, Hs. done.
Qed.

Lemma trimStart_empty_iff (s : string) :
  trimStart s = "" ↔ whitespaceOnly s = true.
Proof.
  rewrite <- whitespaceOnly_trimStart. split; [by intros -> |].
  rewrite whitespaceOnly_unfold, stripWhiteSpace_trimStart.
  by destruct (trimStart s).
Qed.

Lemma whitespaceOnly_app (s t : string) :
  whitespaceOnly s = true → whitespaceOnly (s ++ t) = whitespaceOnly t.
Proof.
  induction s as [s IH] using whiteSpace_ind.
  destruct s as [|b s']; [done |].
  rewrite whitespaceOnly_unfold.
  destruct (stripWhiteSpace (String b s')) as [rest|] eqn:Hs; [| done].
  intros Hrest.
  rewrite whitespaceOnly_unfold, append_cons, <- append_cons.
  rewrite (stripWhiteSpace_app _ _ _ Hs). by apply IH.
Qed.

(** What [trimEnd] removes is white space. *)
Lemma trimEnd_suffix (s : string) :
  ∃ blank, s = trimEnd s ++ blank ∧ whitespaceOnly blank = true.
Proof.
  induction s as [|b s IH]; [by exists "" |].
  cbn [trimEnd]. destruct (whitespaceOnly (String b s)) eqn:Hws.
  - by exists (String b s).
  - destruct IH as (blank & Hs & Hblank). exists blank.
    by rewrite append_cons, <- Hs.
Qed.

Lemma trimEnd_empty_iff (s : string) :
  trimEnd s = "" ↔ whitespaceOnly s = true.
Proof.
  destruct s as [|b s]; [done |]. cbn [trimEnd].
  by destruct (whitespaceOnly (String b s)).
Qed.

Lemma whitespaceOnly_trimEnd (s : string) :
  whitespaceOnly (trimEnd s) = whitespaceOnly s.
Proof.
  destruct (trimEnd_suffix s) as (blank & Hs & Hblank).
  destruct (whitespaceOnly (trimEnd s)) eqn:Hws.
  - rewrite Hs. by rewrite whitespaceOnly_app.
  - destruct (whitespaceOnly s) eqn:Hall; [| done].
    apply trimEnd_empty_iff in Hall. by rewrite Hall in Hws.
Qed.

(** [trimEnd] leaves no white space at the end. *)
Lemma trimEnd_no_trailing (s : string) : ¬ trailingWhiteSpace (trimEnd s).
Proof.
  intros (kept & blank & Hs & Hblank & Hws).
  revert kept Hs. induction s as [|b s IH]; intros kept.
  - simpl. destruct kept; [rewrite append_nil_l; by intros <- | done].
  - pose proof (whitespaceOnly_trimEnd (String b s)) as Hsame.
    cbn [trimEnd] in *. destruct (whitespaceOnly (String b s)).
    + destruct kept; [rewrite append_nil_l; by intros <- | done].
    + destruct kept as [|b' kept].
      * rewrite append_nil_l. intros Hs. rewrite Hs in Hsame. congruence.
      * rewrite append_cons. intros [= _ Hkept]. by apply (IH kept).
Qed.

(** A string that ends with no white space is its own [trimEnd]. *)
Lemma trimEnd_fixed (s : string) : ¬ trailingWhiteSpace s → trimEnd s = s.
Proof.
  induction s as [|b s IH]; [done |]. intros Hs. cbn [trimEnd].
  destruct (whitespaceOnly (String b s)) eqn:Hws.
  - destruct Hs. by exists "", (String b s).
  - f_equal. apply IH. intros (kept & blank & -> & Hblank & Hblank').
    apply Hs. by exists (String b kept), blank.
Qed.

(** [trim] leaves nothing exactly when the string is whitespace only. *)
Lemma trim_empty_iff (s : string) :
  trim s = "" ↔ whitespaceOnly s = true.
Proof.
  unfold trim. by rewrite trimEnd_empty_iff, whitespaceOnly_trimStart.
Qed.

Lemma stripWhiteSpace_trim (s : string) : stripWhiteSpace (trim s) = None.
Proof.
  unfold trim.
  destruct (trimEnd_suffix (trimStart s)) as (tail & Htail & _).
  pose proof (stripWhiteSpace_trimStart s) as Hnone.
  rewrite Htail in Hnone. by apply stripWhiteSpace_prefix in Hnone.
Qed.

(** What [trim] returns neither starts nor ends with white space. *)
Lemma trim_no_leading (s : string) : ¬ leadingWhiteSpace (trim s).
Proof.
  intros (blank & rest & Hs & Hblank & Hws).
  pose proof (stripWhiteSpace_trim s) as Hnone.
  rewrite Hs in Hnone. apply stripWhiteSpace_prefix in Hnone.
  rewrite whitespaceOnly_unfold, Hnone in Hws. by destruct blank.
Qed.

Lemma trim_no_trailing (s : string) : ¬ trailingWhiteSpace (trim s).
Proof. apply trimEnd_no_trailing. Qed.

(** A string with white space at neither end is its own [trim]. *)
Lemma trim_fixed (s : string) :
  ¬ leadingWhiteSpace s → ¬ trailingWhiteSpace s → trim s = s.
Proof.
  intros Hlead Htrail. unfold trim. rewrite trimStart_fixed.
  - by apply trimEnd_fixed.
  - destruct (stripWhiteSpace s) as [rest|] eqn:Hs; [| done].
    destruct Hlead.
    destruct (stripWhiteSpace_split s rest Hs) as (blank & ? & ? & ?).
    by exists blank, rest.
Qed.

Lemma trim_idempotent (s : string) : trim (trim s) = trim s.
Proof. apply trim_fixed; [apply trim_no_leading | apply trim_no_trailing]. Qed.

(** ** [trim] on code points *)

Ltac lia_div := zify; Z.to_euclidean_division_equations; lia.

Lemma isWhiteSpace_bound (codePoint : N) :
  isWhiteSpace codePoint = true → (codePoint < 0x10000)%N.
Proof.
  unfold isWhiteSpace. intros H. apply orb_prop in H as [H | H].
  - apply bool_decide_eq_true_1 in H.
    repeat (apply elem_of_cons in H as [-> | H]; [done |]).
    by apply elem_of_nil in H.
  - apply andb_prop in H as [_ H]. apply N.leb_le in H. lia.
Qed.

Lemma isWhiteSpace1_lead (b1 : ascii) :
  isWhiteSpace1 b1 = true → (N_of_ascii b1 < 0x80)%N.
Proof.
  unfold isWhiteSpace1. intros H. apply andb_prop in H as [H _].
  by apply N.ltb_lt.
Qed.

Lemma isWhiteSpace2_lead (b1 b2 : ascii) :
  isWhiteSpace2 b1 b2 = true → (0xC0 ≤ N_of_ascii b1 < 0xE0)%N.
Proof.
  unfold isWhiteSpace2. intros H.
  do 3 apply andb_prop in H as [H _]. apply andb_prop in H as [H1 H2].
  apply N.leb_le in H1. apply N.ltb_lt in H2. done.
Qed.

Lemma isWhiteSpace3_lead (b1 b2 b3 : ascii) :
  isWhiteSpace3 b1 b2 b3 = true → (0xE0 ≤ N_of_ascii b1 < 0xF0)%N.
Proof.
  unfold isWhiteSpace3. intros H.
  do 4 apply andb_prop in H as [H _]. apply andb_prop in H as [H1 H2].
  apply N.leb_le in H1. apply N.ltb_lt in H2. done.
Qed.

(** White space starts with a byte below 0x80 or with the first byte of a
    sequence of two or three. *)
Lemma stripWhiteSpace_lead (b : ascii) (s rest : string) :
  stripWhiteSpace (String b s) = Some rest →
  (N_of_ascii b < 0x80 ∨ 0xC0 ≤ N_of_ascii b < 0xF0)%N.
Proof.
  simpl. destruct (isWhiteSpace1 b) eqn:H1.
  { intros _. left. by apply isWhiteSpace1_lead. }
  destruct s as [|b2 s2]; [done |].
  destruct (isWhiteSpace2 b b2) eqn:H2.
  { intros _. right. apply isWhiteSpace2_lead in H2. lia. }
  destruct s2 as [|b3 s3]; [done |].
  destruct (isWhiteSpace3 b b2 b3) eqn:H3; [| done].
  intros _. right. apply isWhiteSpace3_lead in H3. lia.
Qed.

Lemma whitespaceOnly_not_lead (b : ascii) (s : string) :
  (0x80 ≤ N_of_ascii b < 0xC0 ∨ 0xF0 ≤ N_of_ascii b)%N →
  whitespaceOnly (String b s) = false.
Proof.
  intros Hb. rewrite whitespaceOnly_unfold.
  destruct (stripWhiteSpace (String b s)) as [rest|] eqn:Hs; [| done].
  apply stripWhiteSpace_lead in Hs. lia.
Qed.

(** The bytes of the encodings. *)
Lemma utf8_1 (codePoint : N) :
  (codePoint < 0x80)%N →
  ∃ b1, utf8 codePoint = String b1 "" ∧ N_of_ascii b1 = codePoint.
Proof.
  intros H. eexists. split.
  - unfold utf8. rewrite (proj2 (N.ltb_lt _ _) H). reflexivity.
  - apply N_ascii_embedding. lia.
Qed.

Lemma utf8_2 (codePoint : N) :
  (0x80 ≤ codePoint < 0x800)%N →
  ∃ b1 b2, utf8 codePoint = String b1 (String b2 "")
    ∧ N_of_ascii b1 = (0xC0 + codePoint / 64)%N
    ∧ N_of_ascii b2 = (0x80 + codePoint mod 64)%N.
Proof.
  intros H. eexists _, _. split_and!.
  - unfold utf8. rewrite (proj2 (N.ltb_ge _ _)) by lia.
    rewrite (proj2 (N.ltb_lt _ _)) by lia. reflexivity.
  - apply N_ascii_embedding. lia_div.
  - apply N_ascii_embedding. lia_div.
Qed.

Lemma utf8_3 (codePoint : N) :
  (0x800 ≤ codePoint < 0x10000)%N →
  ∃ b1 b2 b3, utf8 codePoint = String b1 (String b2 (String b3 ""))
    ∧ N_of_ascii b1 = (0xE0 + codePoint / 4096)%N
    ∧ N_of_ascii b2 = (0x80 + (codePoint / 64) mod 64)%N
    ∧ N_of_ascii b3 = (0x80 + codePoint mod 64)%N.
Proof.
  intros H. eexists _, _, _. split_and!.
  - unfold utf8. do 2 rewrite (proj2 (N.ltb_ge _ _)) by lia.
    rewrite (proj2 (N.ltb_lt _ _)) by lia. reflexivity.
  - apply N_ascii_embedding. lia_div.
  - apply N_ascii_embedding. lia_div.
  - apply N_ascii_embedding. lia_div.
Qed.

Lemma utf8_4 (codePoint : N) :
  (0x10000 ≤ codePoint < 0x110000)%N →
  ∃ b1 b2 b3 b4,
    utf8 codePoint = String b1 (String b2 (String b3 (String b4 "")))
    ∧ N_of_ascii b1 = (0xF0 + codePoint / 262144)%N
    ∧ N_of_ascii b2 = (0x80 + (codePoint / 4096) mod 64)%N
    ∧ N_of_ascii b3 = (0x80 + (codePoint / 64) mod 64)%N
    ∧ N_of_ascii b4 = (0x80 + codePoint mod 64)%N.
Proof.
  intros H. eexists _, _, _, _. split_and!.
  - unfold utf8. do 3 rewrite (proj2 (N.ltb_ge _ _)) by lia. reflexivity.
  - apply N_ascii_embedding. lia_div.
  - apply N_ascii_embedding. lia_div.
  - apply N_ascii_embedding. lia_div.
  - apply N_ascii_embedding. lia_div.
Qed.

Ltac bool_true := 
  repeat first
    [ rewrite (proj2 (N.leb_le _ _)) by lia_div
    | rewrite (proj2 (N.ltb_lt _ _)) by lia_div ];
  cbn [andb].

(** [stripWhiteSpace] reads one code point: it drops the encoding of white
    space, and of nothing else. *)
Lemma stripWhiteSpace_utf8 (codePoint : N) (s : string) :
  (codePoint < 0x110000)%N →
  stripWhiteSpace (utf8 codePoint ++ s)
  = if isWhiteSpace codePoint then Some s else None.
Proof.
  intros Hvalid.
  destruct (N.lt_ge_cases codePoint 0x80) as [H1 | H1];
    [| destruct (N.lt_ge_cases codePoint 0x800) as [H2 | H2];
       [| destruct (N.lt_ge_cases codePoint 0x10000) as [H3 | H3]]].
  - destruct (utf8_1 codePoint H1) as (b1 & -> & Hb1).
    rewrite append_cons, append_nil_l.
    assert (Hw1 : isWhiteSpace1 b1 = isWhiteSpace codePoint).
    { unfold isWhiteSpace1. rewrite Hb1. by bool_true. }
    destruct (isWhiteSpace codePoint) eqn:Hws; simpl; rewrite Hw1; [done |].
    destruct s as [|b2 s2]; [done |].
    destruct (isWhiteSpace2 b1 b2) eqn:Hw2.
    { apply isWhiteSpace2_lead in Hw2. lia_div. }
    destruct s2 as [|b3 s3]; [done |].
    destruct (isWhiteSpace3 b1 b2 b3) eqn:Hw3; [| done].
    apply isWhiteSpace3_lead in Hw3. lia_div.
  - destruct (utf8_2 codePoint (conj H1 H2)) as (b1 & b2 & -> & Hb1 & Hb2).
    rewrite !append_cons, append_nil_l.
    assert (Hw1 : isWhiteSpace1 b1 = false).
    { destruct (isWhiteSpace1 b1) eqn:Hw; [| done].
      apply isWhiteSpace1_lead in Hw. lia_div. }
    assert (Hw2 : isWhiteSpace2 b1 b2 = isWhiteSpace codePoint).
    { unfold isWhiteSpace2, continuation. rewrite Hb1, Hb2.
      replace ((0xC0 + codePoint / 64 - 0xC0) * 64
               + (0x80 + codePoint mod 64 - 0x80))%N
        with codePoint by lia_div.
      by bool_true. }
    simpl. rewrite Hw1, Hw2.
    destruct (isWhiteSpace codePoint) eqn:Hws; [done |].
    destruct s as [|b3 s3]; [done |].
    destruct (isWhiteSpace3 b1 b2 b3) eqn:Hw3; [| done].
    apply isWhiteSpace3_lead in Hw3. lia_div.
  - destruct (utf8_3 codePoint (conj H2 H3))
      as (b1 & b2 & b3 & -> & Hb1 & Hb2 & Hb3).
    rewrite !append_cons, append_nil_l.
    assert (Hw1 : isWhiteSpace1 b1 = false).
    { destruct (isWhiteSpace1 b1) eqn:Hw; [| done].
      apply isWhiteSpace1_lead in Hw. lia_div. }
    assert (Hw2 : isWhiteSpace2 b1 b2 = false).
    { destruct (isWhiteSpace2 b1 b2) eqn:Hw; [| done].
      apply isWhiteSpace2_lead in Hw. lia_div. }
    assert (Hw3 : isWhiteSpace3 b1 b2 b3 = isWhiteSpace codePoint).
    { unfold isWhiteSpace3, continuation. rewrite Hb1, Hb2, Hb3.
      replace ((0xE0 + codePoint / 4096 - 0xE0) * 4096
               + (0x80 + (codePoint / 64) mod 64 - 0x80) * 64
               + (0x80 + codePoint mod 64 - 0x80))%N
        with codePoint by lia_div.
      by bool_true. }
    simpl. rewrite Hw1, Hw2, Hw3. by destruct (isWhiteSpace codePoint).
  - destruct (utf8_4 codePoint (conj H3 Hvalid))
      as (b1 & b2 & b3 & b4 & -> & Hb1 & _).
    rewrite !append_cons, append_nil_l.
    destruct (isWhiteSpace codePoint) eqn:Hws.
    { apply isWhiteSpace_bound in Hws. lia_div. }
    match goal with |- stripWhiteSpace ?t = _ =>
      destruct (stripWhiteSpace t) as [rest|] eqn:Hs; [| done]
    end.
    apply stripWhiteSpace_lead in Hs. lia_div.
Qed.

Lemma utf8_not_empty (codePoint : N) (s : string) : utf8 codePoint ++ s ≠ "".
Proof.
  unfold utf8. repeat case_match; by rewrite append_cons.
Qed.

(** A text is whitespace only when each of its code points is white
    space. *)
Lemma whitespaceOnly_fromCodePoint (codePoints : list N) :
  Forall (fun codePoint => (codePoint < 0x110000)%N) codePoints →
  whitespaceOnly (fromCodePoint codePoints) = forallb isWhiteSpace codePoints.
Proof.
  induction 1 as [|codePoint rest Hvalid _ IH]; [done |].
  cbn [fromCodePoint foldr forallb]. fold (fromCodePoint rest).
  rewrite whitespaceOnly_unfold, stripWhiteSpace_utf8 by done.
  pose proof (utf8_not_empty codePoint (fromCodePoint rest)).
  destruct (utf8 codePoint ++ fromCodePoint rest); [done |].
  destruct (isWhiteSpace codePoint); [exact IH | done].
Qed.

Lemma fromCodePoint_app (l1 l2 : list N) :
  fromCodePoint (l1 ++ l2) = fromCodePoint l1 ++ fromCodePoint l2.
Proof.
  induction l1 as [|c l1 IH]; [done |].
  cbn [fromCodePoint foldr app]. fold (fromCodePoint (l1 ++ l2)).
  fold (fromCodePoint l1). by rewrite IH, append_assoc.
Qed.

(** [trimStart] on code points: the white space in front goes, what starts
    with something else stays. *)
Lemma trimStart_fromCodePoint (blank rest : list N) :
  Forall (fun codePoint => (codePoint < 0x110000)%N) (blank ++ rest) →
  forallb isWhiteSpace blank = true →
  (∀ codePoint, head rest = Some codePoint → isWhiteSpace codePoint = false) →
  trimStart (fromCodePoint (blank ++ rest)) = fromCodePoint rest.
Proof.
  intros Hvalid Hblank Hrest.
  induction blank as [|c blank IH].
  - rewrite app_nil_l in *. apply trimStart_fixed.
    destruct rest as [|c rest]; [done |].
    apply Forall_cons in Hvalid as [Hc _].
    cbn [fromCodePoint foldr]. rewrite stripWhiteSpace_utf8 by done.
    by rewrite (Hrest c).
  - cbn [forallb] in Hblank. apply andb_prop in Hblank as [Hc Hblank].
    rewrite <- app_comm_cons in Hvalid.
    apply Forall_cons in Hvalid as [Hvc Hvalid].
    rewrite <- app_comm_cons. cbn [fromCodePoint foldr].
    rewrite trimStart_unfold, stripWhiteSpace_utf8, Hc by done.
    by apply IH.
Qed.

(** [trimEnd] passes a code point that something other than white space
    follows, or that is not white space itself. *)
Lemma trimEnd_utf8 (codePoint : N) (s : string) :
  (codePoint < 0x110000)%N →
  whitespaceOnly (utf8 codePoint ++ s) = false →
  trimEnd (utf8 codePoint ++ s) = utf8 codePoint ++ trimEnd s.
Proof.
  intros Hvalid.
  destruct (N.lt_ge_cases codePoint 0x80) as [H1 | H1];
    [| destruct (N.lt_ge_cases codePoint 0x800) as [H2 | H2];
       [| destruct (N.lt_ge_cases codePoint 0x10000) as [H3 | H3]]].
  - destruct (utf8_1 codePoint H1) as (b1 & -> & Hb1).
    rewrite !append_cons, !append_nil_l. intros Hws.
    cbn [trimEnd]. by rewrite Hws.
  - destruct (utf8_2 codePoint (conj H1 H2)) as (b1 & b2 & -> & Hb1 & Hb2).
    rewrite !append_cons, !append_nil_l. intros Hws.
    cbn [trimEnd]. rewrite Hws.
    rewrite (whitespaceOnly_not_lead b2) by lia_div. done.
  - destruct (utf8_3 codePoint (conj H2 H3))
      as (b1 & b2 & b3 & -> & Hb1 & Hb2 & Hb3).
    rewrite !append_cons, !append_nil_l. intros Hws.
    cbn [trimEnd]. rewrite Hws.
    rewrite (whitespaceOnly_not_lead b2) by lia_div.
    rewrite (whitespaceOnly_not_lead b3) by lia_div. done.
  - destruct (utf8_4 codePoint (conj H3 Hvalid))
      as (b1 & b2 & b3 & b4 & -> & Hb1 & Hb2 & Hb3 & Hb4).
    rewrite !append_cons, !append_nil_l. intros Hws.
    cbn [trimEnd]. rewrite Hws.
    rewrite (whitespaceOnly_not_lead b2) by lia_div.
    rewrite (whitespaceOnly_not_lead b3) by lia_div.
    rewrite (whitespaceOnly_not_lead b4) by lia_div. done.
Qed.

Lemma trimEnd_fromCodePoint (kept blank : list N) :
  Forall (fun codePoint => (codePoint < 0x110000)%N) (kept ++ blank) →
  forallb isWhiteSpace blank = true →
  (∀ codePoint, last kept = Some codePoint → isWhiteSpace codePoint = false) →
  trimEnd (fromCodePoint (kept ++ blank)) = fromCodePoint kept.
Proof.
  intros Hvalid Hblank Hkept.
  induction kept as [|c kept IH].
  - rewrite app_nil_l in *. apply trimEnd_empty_iff.
    by rewrite whitespaceOnly_fromCodePoint.
  - pose proof Hvalid as Hall.
    rewrite <- app_comm_cons in Hvalid.
    apply Forall_cons in Hvalid as [Hvc Hvalid].
    rewrite <- app_comm_cons. cbn [fromCodePoint foldr].
    fold (fromCodePoint (kept ++ blank)). fold (fromCodePoint kept).
    rewrite trimEnd_utf8; [| done |].
    + f_equal. apply IH; [done |].
      intros c' Hc'. apply Hkept. rewrite last_cons, Hc'. done.
    + change (whitespaceOnly (fromCodePoint (c :: kept ++ blank)) = false).
      rewrite app_comm_cons, whitespaceOnly_fromCodePoint by done.
      destruct (last (c :: kept)) as [c'|] eqn:Hlast;
        [| by rewrite last_cons in Hlast; destruct (last kept)].
      specialize (Hkept c' eq_refl).
      apply last_Some in Hlast as (front & Hfront).
      rewrite Hfront, <- app_assoc, forallb_app. simpl.
      by rewrite Hkept, andb_false_r.
Qed.

(** [trim] on code points: of a text that is white space, then code points
    of which the first and the last are not white space, then white space
    again, [trim] keeps the middle part. *)
Lemma trim_fromCodePoint (before kept after : list N) :
  Forall (fun codePoint => (codePoint < 0x110000)%N)
    (before ++ kept ++ after) →
  forallb isWhiteSpace before = true →
  forallb isWhiteSpace after = true →
  (∀ codePoint, head kept = Some codePoint → isWhiteSpace codePoint = false) →
  (∀ codePoint, last kept = Some codePoint → isWhiteSpace codePoint = false) →
  trim (fromCodePoint (before ++ kept ++ after)) = fromCodePoint kept.
Proof.
  intros Hvalid Hbefore Hafter Hhead Hlast. unfold trim.
  destruct kept as [|c kept].
  - rewrite app_nil_l in *.
    apply trimEnd_empty_iff. rewrite whitespaceOnly_trimStart.
    rewrite whitespaceOnly_fromCodePoint, forallb_app by done.
    by rewrite Hbefore, Hafter.
  - rewrite trimStart_fromCodePoint; [| done | done |].
    + apply trimEnd_fromCodePoint; [| done | done].
      by apply Forall_app in Hvalid as [_ Hvalid].
    + intros c' [= <-]. by apply Hhead.
Qed.

(** Each white space and line terminator of ECMAScript, encoded, is
    whitespace only; a letter, U+0085, an accented letter, U+180E, the
    zero-width space, the word joiner and an emoji are not. *)
Example isWhiteSpace_samples :
  Forall (fun codePoint => whitespaceOnly (utf8 codePoint) = true)
    ([0x9; 0xA; 0xB; 0xC; 0xD; 0x20; 0xA0; 0x1680; 0x2000; 0x2001; 0x2002;
      0x2003; 0x2004; 0x2005; 0x2006; 0x2007; 0x2008; 0x2009; 0x200A;
      0x2028; 0x2029; 0x202F; 0x205F; 0x3000; 0xFEFF]%N)
  ∧ Forall (fun codePoint => whitespaceOnly (utf8 codePoint) = false)
      ([0x41; 0x85; 0xE9; 0x180E; 0x200B; 0x2060; 0x1F525]%N).
Proof. split; repeat constructor. Qed.

Example trim_samples :
  trim "  Morning run " = "Morning run" ∧ trim "   " = "" ∧ trim "" = ""
  ∧ trim (fromCodePoint [0xA0; 0x20; 0x3000]%N) = ""
  ∧ trim (utf8 0x2003 ++ "Read" ++ fromCodePoint [0xFEFF; 0xA]%N) = "Read"
  ∧ trim (" caf" ++ fromCodePoint [0xE9; 0xA0]%N) = "caf" ++ utf8 0xE9
  ∧ trim (utf8 0x200B ++ "Nap ") = utf8 0x200B ++ "Nap".
Proof. split_and!; reflexivity. Qed.

(** C8.  [addHabit] returns normally.  When the name typed is empty or
    whitespace only (every code point of it is white space or a line
    terminator of ECMAScript, the no-break space and the other space
    separators included), it raises the "Please enter a habit name" alert
    and changes nothing else: the collection, the storage, the typed name,
    the screen and the console are as before.  Otherwise it appends one
    habit, with streak 0, [lastCompleted] null and the trimmed name, and no
    alert is raised. *)
Theorem addHabit_validates_name (pf : Platform) (clk : Clock) (w : World) :
  let w' := (addHabit pf clk w).1 in
  (addHabit pf clk w).2 = Ok tt
  ∧ (whitespaceOnly (newHabitName w) = true →
       habits w' = habits w ∧ storage w' = storage w
       ∧ alerts w' = ("Error", "Please enter a habit name") :: alerts w
       ∧ newHabitName w' = newHabitName w ∧ screen w' = screen w
       ∧ console w' = console w)
  ∧ (whitespaceOnly (newHabitName w) = false →
       ∃ newHabit,
         habits w' = (habits w ++ [newHabit])%list
         ∧ streak newHabit = 0 ∧ lastCompleted newHabit = None
         ∧ habit_name newHabit = trim (newHabitName w)
         ∧ habit_id newHabit = pretty (Date_now clk)
         ∧ createdAt newHabit = toISOString clk
         ∧ alerts w' = alerts w ∧ newHabitName w' = "" ∧ screen w' = home).
Proof.
  intros w'. subst w'. unfold addHabit. run_js.
  destruct (whitespaceOnly (newHabitName w)) eqn:Hws.
  - rewrite bool_decide_eq_true_2 by by apply trim_empty_iff.
    simpl. split_and!; done.
  - rewrite bool_decide_eq_false_2
      by (rewrite trim_empty_iff, Hws; discriminate).
    match goal with |- context [saveHabits pf ?hs ?w1] =>
      destruct (saveHabits_run pf hs w1)
        as (w' & -> & _ & Hh & _ & Ha & _)
    end.
    simpl in *. split_and!; try done.
    intros _. eexists. split; [exact Hh |]. simpl.
    rewrite Ha. split_and!; reflexivity.
Qed.

(** The scenarios: a blank name is refused and nothing is stored; a proper
    name is trimmed and stored. *)
Example addHabit_scenarios :
  let refused :=
    (addHabit Device.platform Sample.clock
       (Sample.world [Sample.fresh] "   " ∅)).1 in
  let added :=
    (addHabit Device.platform Sample.clock
       (Sample.world [Sample.fresh] " Walk " ∅)).1 in
  habits refused = [Sample.fresh]
  ∧ storage refused !! HABITS_KEY = None
  ∧ alerts refused = [("Error", "Please enter a habit name")]
  ∧ habits added
    = [Sample.fresh;
       {| habit_id := "1710072000000"; habit_name := "Walk"; streak := 0;
          lastCompleted := None; createdAt := "2024-03-10T12:00:00.000Z" |}]
  ∧ storage added !! HABITS_KEY
    = Some (Device.stringify (habits added)).
Proof. vm_compute. split_and!; reflexivity. Qed.

(** A name of no-break and ideographic spaces is refused like a blank one;
    around a proper name they are trimmed away like blanks. *)
Example addHabit_unicode_scenarios :
  let nbsp := utf8 0xA0 in
  let wide := utf8 0x3000 in
  let refused :=
    (addHabit Device.platform Sample.clock
       (Sample.world [Sample.fresh] (nbsp ++ wide ++ " ") ∅)).1 in
  let added :=
    (addHabit Device.platform Sample.clock
       (Sample.world [Sample.fresh] (nbsp ++ "Walk" ++ wide) ∅)).1 in
  habits refused = [Sample.fresh]
  ∧ storage refused !! HABITS_KEY = None
  ∧ alerts refused = [("Error", "Please enter a habit name")]
  ∧ map habit_name (habits added) = ["Stretch"; "Walk"]
  ∧ alerts added = [].
Proof. vm_compute. split_and!; reflexivity. Qed.

(** ** The device's JSON codec reads back what it writes *)

Lemma expect_append (lit s : string) : Device.expect lit (lit ++ s) = Some s.
Proof.
  induction lit as [|c lit IH]; [done |].
  rewrite append_cons. simpl. by rewrite bool_decide_eq_true_2.
Qed.

Lemma read_string_escape (s rest : string) :
  Device.read_string (Device.escape s ++ String Device.dquote rest)
  = Some (s, rest).
Proof.
  induction s as [|c s IH].
  - reflexivity.
  - change (Device.escape (String c s))
      with (Device.escape_char c ++ Device.escape s).
    rewrite append_assoc. unfold Device.escape_char.
    repeat case_bool_decide; subst;
      rewrite !append_cons, append_nil_l.
    1-5: simpl; by rewrite IH.
    simpl. rewrite !bool_decide_eq_false_2 by done. by rewrite IH.
Qed.

Lemma read_quoted_quoted (s rest : string) :
  Device.read_quoted (Device.quoted s ++ rest) = Some (s, rest).
Proof.
  unfold Device.read_quoted, Device.quoted.
  rewrite append_cons, append_assoc, append_cons, append_nil_l. simpl.
  apply read_string_escape.
Qed.

Lemma read_uint_show (u : Decimal.uint) (c : ascii) (rest : string) :
  Device.digit_cons c = None →
  Device.read_uint (NilEmpty.string_of_uint u ++ String c rest)
  = (u, String c rest).
Proof.
  intros Hc.
  induction u as [|u IH|u IH|u IH|u IH|u IH|u IH|u IH|u IH|u IH|u IH];
    simpl NilEmpty.string_of_uint; rewrite ?append_cons, ?append_nil_l;
    simpl; rewrite ?IH; try done.
  by rewrite Hc.
Qed.

Lemma expect_minus_digits (u : Decimal.uint) (rest : string) :
  u ≠ Decimal.Nil →
  Device.expect "-" (NilEmpty.string_of_uint u ++ rest) = None.
Proof. by destruct u. Qed.

Lemma nonempty_uint_true (u : Decimal.uint) :
  u ≠ Decimal.Nil → Device.nonempty_uint u = true.
Proof. by destruct u. Qed.

Lemma read_number_show (z : Z) (c : ascii) (rest : string) :
  Device.digit_cons c = None →
  Device.read_number (Device.show_number z ++ String c rest)
  = Some (z, String c rest).
Proof.
  intros Hc. unfold Device.show_number, Device.read_number.
  pose proof (DecimalZ.of_to z) as Hz.
  destruct z as [|p|p]; simpl Z.to_int in *; simpl NilEmpty.string_of_int.
  - rewrite !append_cons, append_nil_l. simpl. by rewrite Hc.
  - pose proof (DecimalPos.Unsigned.to_uint_nonnil p) as Hnil.
    rewrite expect_minus_digits, read_uint_show by done.
    by rewrite nonempty_uint_true, Hz.
  - pose proof (DecimalPos.Unsigned.to_uint_nonnil p) as Hnil.
    rewrite append_cons. simpl Device.expect. cbv beta iota.
    rewrite read_uint_show by done.
    by rewrite nonempty_uint_true, Hz.
Qed.

Lemma read_nullable_show (l : option string) (rest : string) :
  Device.read_nullable
    (match l with
     | Some l' => Device.quoted l'
     | None => "null"
     end ++ rest)
  = Some (l, rest).
Proof.
  unfold Device.read_nullable. destruct l as [l|].
  - unfold Device.quoted at 1. rewrite append_cons. simpl Device.expect.
    cbv beta iota.
    change (String Device.dquote
              ((Device.escape l ++ String Device.dquote "") ++ rest))
      with (Device.quoted l ++ rest).
    by rewrite read_quoted_quoted.
  - by rewrite expect_append.
Qed.

Lemma expect_append2 (a b s : string) :
  Device.expect (a ++ b) (a ++ b ++ s) = Some s.
Proof. rewrite <- append_assoc. apply expect_append. Qed.

Lemma read_number_show_comma (z : Z) (rest : string) :
  Device.read_number (Device.show_number z ++ "," ++ rest)
  = Some (z, "," ++ rest).
Proof. by apply (read_number_show z ","%char). Qed.

Lemma read_habit_stringify (h : Habit) (rest : string) :
  Device.read_habit (Device.stringify_habit h ++ rest) = Some (h, rest).
Proof.
  unfold Device.read_habit, Device.stringify_habit.
  rewrite !append_assoc.
  rewrite expect_append2. cbn [mbind option_bind].
  rewrite read_quoted_quoted. cbn [mbind option_bind].
  rewrite expect_append2. cbn [mbind option_bind].
  rewrite read_quoted_quoted. cbn [mbind option_bind].
  rewrite expect_append2. cbn [mbind option_bind].
  rewrite read_number_show_comma. cbn [mbind option_bind].
  rewrite expect_append2. cbn [mbind option_bind].
  rewrite read_nullable_show. cbn [mbind option_bind].
  rewrite expect_append2. cbn [mbind option_bind].
  rewrite read_quoted_quoted. cbn [mbind option_bind].
  rewrite expect_append. cbn [mbind option_bind].
  by destruct h.
Qed.

Lemma length_append (s t : string) :
  String.length (s ++ t) = (String.length s + String.length t)%nat.
Proof.
  induction s as [|c s IH]; [done |].
  rewrite append_cons. simpl. by rewrite IH.
Qed.

(** The text that follows the first element of a serialized list: each
    further element behind a comma, then the closing bracket. *)
Lemma concat_first_rest (h : Habit) (hs : list Habit) :
  String.concat "," (map Device.stringify_habit (h :: hs)) ++ "]"
  = Device.stringify_habit h
    ++ foldr (fun h' acc => "," ++ Device.stringify_habit h' ++ acc) "]" hs.
Proof.
  revert h. induction hs as [|h' hs IH]; intros h; [done |].
  change (String.concat "," (map Device.stringify_habit (h :: h' :: hs)))
    with (Device.stringify_habit h ++ ","
          ++ String.concat "," (map Device.stringify_habit (h' :: hs))).
  rewrite !append_assoc, IH. done.
Qed.

Lemma rest_length (hs : list Habit) :
  (length hs
   < String.length
       (foldr (fun h' acc => "," ++ Device.stringify_habit h' ++ acc)
          "]" hs))%nat.
Proof.
  induction hs as [|h hs IH]; simpl foldr.
  - simpl. lia.
  - rewrite !length_append. simpl. lia.
Qed.

Lemma read_more_rest (hs : list Habit) :
  ∀ fuel, (length hs < fuel)%nat →
    Device.read_more fuel
      (foldr (fun h' acc => "," ++ Device.stringify_habit h' ++ acc) "]" hs)
    = Some hs.
Proof.
  induction hs as [|h hs IH]; intros [|fuel] Hfuel; simpl in Hfuel;
    try lia.
  - reflexivity.
  - simpl foldr. cbn [Device.read_more].
    rewrite append_cons, append_nil_l.
    cbn [Device.expect]. simpl bool_decide. cbv beta iota.
    cbn [mbind option_bind].
    rewrite read_habit_stringify. cbn [mbind option_bind].
    rewrite IH by lia. done.
Qed.

(** The codec of the device is a round trip on every habit list, and the
    text it writes is never empty: on this device the two assumptions made
    of the codec when reasoning about a second load hold for every list. *)
Lemma Device_parse_stringify (hs : list Habit) :
  Device.parse (Device.stringify hs) = Some hs.
Proof.
  unfold Device.parse, Device.stringify.
  rewrite expect_append. cbn [mbind option_bind].
  destruct hs as [|h hs]; [reflexivity |].
  rewrite concat_first_rest.
  assert (Hopen : ∀ t, Device.expect "]" (Device.stringify_habit h ++ t) = None)
    by done.
  rewrite Hopen, read_habit_stringify. cbn [mbind option_bind].
  rewrite read_more_rest; [done |].
  rewrite !length_append. pose proof (rest_length hs) as Hrest.
  simpl. lia.
Qed.

Lemma Device_stringify_nonempty (hs : list Habit) : Device.stringify hs ≠ "".
Proof. unfold Device.stringify. by rewrite append_cons. Qed.

(** ** Loading and saving *)

Section LoadFacts.
Context (pf : Platform) (clk : Clock).

Lemma getItem_rejected (key : string) (w : World) :
  getItem_rejects w = true →
  AsyncStorage_getItem key w = (w, Throw StorageRejected).
Proof. unfold AsyncStorage_getItem. by intros ->. Qed.

Lemma getItem_resolved (key : string) (w : World) :
  getItem_rejects w = false →
  AsyncStorage_getItem key w = (w, Ok (storage w !! key)).
Proof. unfold AsyncStorage_getItem. by intros ->. Qed.

Lemma loadHabits_read_failure (w : World) :
  getItem_rejects w = true →
  loadHabits pf clk w = console_error "Load habits error:" w.
Proof.
  intros Hrej. unfold loadHabits, try_catch, bind.
  by rewrite getItem_rejected.
Qed.

Lemma loadHabits_parse_failure (w : World) (text : string) :
  getItem_rejects w = false →
  storage w !! HABITS_KEY = Some text → text ≠ "" →
  JSON_parse pf text = None →
  loadHabits pf clk w = console_error "Load habits error:" w.
Proof.
  intros Hrej Hst Hne Hparse.
  unfold loadHabits, try_catch, bind, JSON_parse_or_throw.
  rewrite getItem_resolved, Hst by done. simpl.
  rewrite bool_decide_eq_false_2 by done.
  by rewrite Hparse.
Qed.

Lemma loadHabits_nothing_stored (w : World) :
  getItem_rejects w = false →
  falsy (storage w !! HABITS_KEY) = true →
  loadHabits pf clk w = setHabits [] w.
Proof.
  intros Hrej Hf. unfold loadHabits, try_catch, bind.
  rewrite getItem_resolved, Hf by done. simpl.
  by rewrite bool_decide_eq_false_2 by (intros Hne; by apply Hne).
Qed.

Lemma loadHabits_parsed (w : World) (text : string) (hs : list Habit) :
  getItem_rejects w = false →
  storage w !! HABITS_KEY = Some text → text ≠ "" →
  JSON_parse pf text = Some hs →
  let resetHabits := resetStreaksIfNeeded pf clk hs in
  loadHabits pf clk w
  = if bool_decide (JSON_stringify pf hs ≠ JSON_stringify pf resetHabits)
    then saveHabits pf resetHabits (setHabits resetHabits w).1
    else setHabits resetHabits w.
Proof.
  intros Hrej Hst Hne Hparse resetHabits. subst resetHabits.
  unfold loadHabits, try_catch, bind, JSON_parse_or_throw.
  rewrite getItem_resolved, Hst by done. simpl.
  rewrite bool_decide_eq_false_2 by done.
  rewrite Hparse. simpl.
  case_bool_decide; [| done].
  match goal with |- context [saveHabits pf ?r ?w1] =>
    by destruct (saveHabits_run pf r w1) as (w' & -> & _)
  end.
Qed.

Lemma loadHabits_returns (w : World) : (loadHabits pf clk w).2 = Ok tt.
Proof.
  destruct (getItem_rejects w) eqn:Hrej.
  { by rewrite loadHabits_read_failure. }
  destruct (falsy (storage w !! HABITS_KEY)) eqn:Hf.
  { by rewrite loadHabits_nothing_stored. }
  apply falsy_false_iff in Hf as (text & Hst & Hne).
  destruct (JSON_parse pf text) as [hs|] eqn:Hparse.
  - rewrite (loadHabits_parsed w text hs) by done.
    case_bool_decide; [| done].
    match goal with |- context [saveHabits pf ?r ?w1] =>
      by destruct (saveHabits_run pf r w1) as (w' & -> & _)
    end.
  - by rewrite (loadHabits_parse_failure w text).
Qed.

End LoadFacts.

(** C7, as amended.  [loadHabits] never raises.  When the stored content is
    present but [JSON.parse] rejects it, the failure is caught inside
    [loadHabits] and logged with [console.error]; the call returns normally,
    and the in-memory collection (the empty list at startup) and the stored
    content are left as they were. *)
Theorem loadHabits_swallows_parse_failure
    (pf : Platform) (clk : Clock) (w : World) :
  let w' := (loadHabits pf clk w).1 in
  (loadHabits pf clk w).2 = Ok tt
  ∧ (∀ text,
       getItem_rejects w = false →
       storage w !! HABITS_KEY = Some text → text ≠ "" →
       JSON_parse pf text = None →
       habits w' = habits w ∧ storage w' = storage w
       ∧ console w' = "Load habits error:" :: console w
       ∧ alerts w' = alerts w).
Proof.
  intros w'. subst w'. split; [apply loadHabits_returns |].
  intros text Hrej Hst Hne Hparse.
  by rewrite (loadHabits_parse_failure pf clk w text).
Qed.

(** C7 as the claim words it fails on corrupt content: the stored text does
    not parse, yet the call returns normally, nothing is raised to the
    caller, and the collection the application is left with is the empty
    list. *)
Lemma loadHabits_on_corrupt_content_returns_normally :
  let w := Sample.world [] "" {[ HABITS_KEY := "{oops" ]} in
  JSON_parse Device.platform "{oops" = None
  ∧ (loadHabits Device.platform Sample.clock w).2 = Ok tt
  ∧ habits (loadHabits Device.platform Sample.clock w).1 = []
  ∧ console (loadHabits Device.platform Sample.clock w).1
    = ["Load habits error:"].
Proof. vm_compute. split_and!; reflexivity. Qed.

(** C4.  Let the storage answer reads and writes and hold a (non-empty)
    text that parses as a habit list, and let the JSON codec read back the
    (non-empty) text it writes for the reset list.  Then after
    [loadHabits], [saveHabits] of the collection just loaded stores the
    serialized reset list, and a second [loadHabits] on the same day leaves
    the whole world, stored bytes included, exactly as it found it.
    Equivalently the pass "parse, reset, serialize" maps the stored text to
    a text that it maps to itself. *)
Theorem load_save_load_idempotent
    (pf : Platform) (clk : Clock) (w : World) (text : string)
    (hs : list Habit) :
  getItem_rejects w = false → setItem_rejects w = false →
  storage w !! HABITS_KEY = Some text → text ≠ "" →
  JSON_parse pf text = Some hs →
  let r := resetStreaksIfNeeded pf clk hs in
  JSON_parse pf (JSON_stringify pf r) = Some r →
  JSON_stringify pf r ≠ "" →
  let w1 := (loadHabits pf clk w).1 in
  let w2 := (saveHabits pf (habits w1) w1).1 in
  let w3 := (loadHabits pf clk w2).1 in
  let pass := fun t =>
    JSON_stringify pf ∘ resetStreaksIfNeeded pf clk <$> JSON_parse pf t in
  habits w1 = r
  ∧ storage w2 !! HABITS_KEY = Some (JSON_stringify pf r)
  ∧ w3 = w2
  ∧ pass text = Some (JSON_stringify pf r)
  ∧ pass (JSON_stringify pf r) = Some (JSON_stringify pf r).
Proof.
  intros Hrej Hwr Hst Hne Hparse r Hback Hnz w1 w2 w3 pass.
  assert (H1 : habits w1 = r ∧ getItem_rejects w1 = false
               ∧ setItem_rejects w1 = false).
  { subst w1. rewrite (loadHabits_parsed pf clk w text hs) by done.
    fold r. case_bool_decide; [| done].
    match goal with |- context [saveHabits pf ?x ?w0] =>
      destruct (saveHabits_run pf x w0)
        as (w' & -> & _ & Hh & _ & _ & Hg & Hs & _)
    end.
    simpl in *. by rewrite Hh, Hg, Hs. }
  destruct H1 as (Hh1 & Hg1 & Hs1).
  assert (H2 : habits w2 = r ∧ getItem_rejects w2 = false
               ∧ storage w2 !! HABITS_KEY = Some (JSON_stringify pf r)).
  { subst w2.
    destruct (saveHabits_run pf (habits w1) w1)
      as (w' & -> & _ & Hh & _ & _ & Hg & _ & Hsto & _).
    simpl. rewrite Hh, Hg, Hsto, Hs1, Hh1.
    by rewrite lookup_insert_eq. }
  destruct H2 as (Hh2 & Hg2 & Hst2).
  split_and!; try done.
  - subst w3.
    rewrite (loadHabits_parsed pf clk w2 (JSON_stringify pf r) r) by done.
    fold r. subst r. rewrite resetStreaksIfNeeded_idempotent.
    rewrite bool_decide_eq_false_2 by (intros Hx; by apply Hx).
    unfold setHabits. simpl. rewrite <- Hh2. by destruct w2.
  - subst pass. simpl. by rewrite Hparse.
  - subst pass r. simpl. rewrite Hback. simpl.
    by rewrite resetStreaksIfNeeded_idempotent.
Qed.

(** The theorem on the sample device, with the four sample habits in
    storage: the second load leaves the world as the save left it. *)
Lemma load_save_load_idempotent_witness :
  let hs :=
    [Sample.fresh; Sample.doneToday; Sample.doneYesterday; Sample.lapsed] in
  let w := Sample.world [] "" {[ HABITS_KEY := Device.stringify hs ]} in
  let w1 := (loadHabits Device.platform Sample.clock w).1 in
  let w2 := (saveHabits Device.platform (habits w1) w1).1 in
  (loadHabits Device.platform Sample.clock w2).1 = w2.
Proof.
  intros hs w w1 w2.
  refine (proj1 (proj2 (proj2
    (load_save_load_idempotent Device.platform Sample.clock w
       (Device.stringify hs) hs _ _ _ _ _ _ _)))).
  - reflexivity.
  - reflexivity.
  - vm_compute. reflexivity.
  - vm_compute. discriminate.
  - vm_compute. reflexivity.
  - vm_compute. reflexivity.
  - vm_compute. discriminate.
Defined.

(** The scenario "streak 5, last completed three days ago" through the
    store: the load resets the streak and writes the corrected list back. *)
Example loadHabits_scenario :
  let w := Sample.world [] "" {[ HABITS_KEY := Device.stringify [Sample.lapsed] ]} in
  habits (loadHabits Device.platform Sample.clock w).1
  = [with_streak Sample.lapsed 0]
  ∧ storage (loadHabits Device.platform Sample.clock w).1 !! HABITS_KEY
    = Some (Device.stringify [with_streak Sample.lapsed 0]).
Proof. vm_compute. split; reflexivity. Qed.

(** ** The stable sort *)

Section SortFacts.
Context {A : Type} (compareFn : A → A → Z).

Lemma sort_insert_perm (x : A) (l : list A) :
  sort_insert compareFn x l ≡ₚ x :: l.
Proof.
  induction l as [|y l IH]; simpl; [done |].
  destruct (0 <? compareFn x y); [| done].
  rewrite IH. apply Permutation_swap.
Qed.

Lemma Array_sort_perm (l : list A) : Array_sort compareFn l ≡ₚ l.
Proof.
  unfold Array_sort. induction l as [|x l IH]; simpl; [done |].
  by rewrite sort_insert_perm, IH.
Qed.

(** Where the inserted element lands: behind the elements it compares
    strictly greater than, and in front of everything else. *)
Lemma sort_insert_split (x : A) (l : list A) :
  ∃ before after,
    sort_insert compareFn x l = (before ++ x :: after)%list
    ∧ l = (before ++ after)%list
    ∧ Forall (fun y => 0 < compareFn x y) before.
Proof.
  induction l as [|y l (before & after & E & El & Hb)]; simpl.
  - by exists [], [].
  - destruct (0 <? compareFn x y) eqn:Hxy.
    + exists (y :: before), after. simpl. rewrite E, El at 1.
      split_and!; [done | done |].
      constructor; [by apply Z.ltb_lt | done].
    + by exists [], (y :: l).
Qed.

(** The comparator of the program is a difference of keys, highest key
    first. *)
Context (key : A → Z).
Hypothesis compareFn_key : ∀ a b, compareFn a b = key b - key a.

Lemma sort_insert_sorted (x : A) (l : list A) :
  Sorted (descending key) l → Sorted (descending key) (sort_insert compareFn x l).
Proof.
  induction 1 as [|y l Hs IH Hhd]; simpl.
  - by repeat constructor.
  - destruct (0 <? compareFn x y) eqn:Hxy.
    + apply Z.ltb_lt in Hxy. rewrite compareFn_key in Hxy.
      constructor; [exact IH |].
      destruct Hhd as [|z l Hyz]; simpl.
      * constructor. unfold descending. lia.
      * destruct (0 <? compareFn x z); constructor; unfold descending in *;
          lia.
    + apply Z.ltb_ge in Hxy. rewrite compareFn_key in Hxy.
      constructor; [by constructor |].
      constructor. unfold descending. lia.
Qed.

Lemma Array_sort_sorted (l : list A) :
  Sorted (descending key) (Array_sort compareFn l).
Proof.
  unfold Array_sort. induction l as [|x l IH]; simpl.
  - constructor.
  - by apply sort_insert_sorted.
Qed.

Lemma descending_trans : Transitive (descending key).
Proof. intros a b c. unfold descending. lia. Qed.

Lemma Array_sort_strongly_sorted (l : list A) :
  StronglySorted (descending key) (Array_sort compareFn l).
Proof.
  apply Sorted_StronglySorted; [apply descending_trans |].
  apply Array_sort_sorted.
Qed.

(** Stability: the elements of any one key keep their relative order. *)
Lemma sort_insert_stable (k : Z) (x : A) (l : list A) :
  filter (fun a => key a = k) (sort_insert compareFn x l)
  = filter (fun a => key a = k) (x :: l).
Proof.
  induction l as [|y l IH]; simpl; [done |].
  destruct (0 <? compareFn x y) eqn:Hxy; [| done].
  apply Z.ltb_lt in Hxy. rewrite compareFn_key in Hxy.
  rewrite (filter_cons (fun a => key a = k) y), IH.
  rewrite !(filter_cons (fun a => key a = k)).
  repeat case_decide; try done; lia.
Qed.

Lemma Array_sort_stable (k : Z) (l : list A) :
  filter (fun a => key a = k) (Array_sort compareFn l)
  = filter (fun a => key a = k) l.
Proof.
  unfold Array_sort. induction l as [|x l IH]; simpl; [done |].
  rewrite sort_insert_stable, !(filter_cons (fun a => key a = k)).
  by rewrite IH.
Qed.

End SortFacts.

Section StableUnique.
Context {A : Type} (key : A → Z).

(** A list in descending key order is determined by its groups of equal
    key: two such lists with the same elements of every key, in the same
    order within each key, are equal.  Whatever stable algorithm the
    engine's [sort] runs, it returns this one list. *)
Lemma stable_descending_unique (l1 l2 : list A) :
  StronglySorted (descending key) l1 →
  StronglySorted (descending key) l2 →
  (∀ k, filter (fun a => key a = k) l1 = filter (fun a => key a = k) l2) →
  l1 = l2.
Proof.
  revert l2. induction l1 as [|x l1 IH]; intros l2 Hs1 Hs2 Hgroups.
  - destruct l2 as [|y l2]; [done |].
    specialize (Hgroups (key y)). simpl in Hgroups.
    rewrite filter_cons_True in Hgroups by done. done.
  - destruct l2 as [|y l2].
    { specialize (Hgroups (key x)).
      rewrite filter_cons_True in Hgroups by done. done. }
    apply StronglySorted_cons in Hs1 as [Hx Hs1].
    apply StronglySorted_cons in Hs2 as [Hy Hs2].
    rewrite Forall_forall in Hx, Hy. unfold descending in Hx, Hy.
    assert (Hyx : key y ≤ key x).
    { pose proof (Hgroups (key y)) as Hg.
      rewrite (filter_cons_True _ y) in Hg by done.
      assert (Hin : y ∈ filter (fun a => key a = key y) (x :: l1))
        by (rewrite Hg; apply list_elem_of_here).
      apply list_elem_of_filter in Hin as [_ Hin].
      apply elem_of_cons in Hin as [-> | Hin]; [lia | by apply Hx]. }
    assert (Hxy : key x ≤ key y).
    { pose proof (Hgroups (key x)) as Hg.
      rewrite (filter_cons_True _ x) in Hg by done.
      assert (Hin : x ∈ filter (fun a => key a = key x) (y :: l2))
        by (rewrite <- Hg; apply list_elem_of_here).
      apply list_elem_of_filter in Hin as [_ Hin].
      apply elem_of_cons in Hin as [-> | Hin]; [lia | by apply Hy]. }
    assert (Hk : key y = key x) by lia.
    pose proof (Hgroups (key x)) as Hhead.
    rewrite (filter_cons_True _ x), (filter_cons_True _ y) in Hhead by done.
    injection Hhead as <- _.
    f_equal. apply IH; [done | done |].
    intros k. specialize (Hgroups k).
    rewrite !(filter_cons (fun a => key a = k)) in Hgroups.
    case_decide; [by injection Hgroups | done].
Qed.

End StableUnique.

(** ** Leaderboard projection *)

Lemma sumValues_empty : sumValues ∅ = 0.
Proof. unfold sumValues. apply map_fold_empty. Qed.

Lemma sumValues_insert_fresh (k : string) (v : Z) (o : gmap string Z) :
  o !! k = None → sumValues (<[k := v]> o) = sumValues o + v.
Proof.
  intros Hk. unfold sumValues.
  rewrite map_fold_insert_L; [done | | done].
  intros. lia.
Qed.

Lemma filter_no_match {A} (P : A → Prop) `{!∀ x, Decision (P x)}
    (l : list A) :
  (∀ x, x ∈ l → ¬ P x) → filter P l = [].
Proof.
  induction l as [|x l IH]; intros Hnone; [done |].
  rewrite filter_cons_False by apply Hnone, list_elem_of_here.
  apply IH. intros y Hy. by apply Hnone, list_elem_of_further.
Qed.

Section LeaderboardFacts.
Context (pf : Platform).

Lemma foldl_obj_set_sum (habits : list Habit) (acc : gmap string Z) :
  NoDup (map (fun h => toLowerCase pf (habit_name h)) habits) →
  "__proto__" ∉ map (fun h => toLowerCase pf (habit_name h)) habits →
  (∀ h, h ∈ habits → acc !! toLowerCase pf (habit_name h) = None) →
  sumValues
    (foldl (fun acc h =>
              obj_set (toLowerCase pf (habit_name h)) (streak h) acc)
           acc habits)
  = sumValues acc + streakSum habits.
Proof.
  revert acc. induction habits as [|h hs IH]; intros acc Hnd Hproto Hfresh.
  - simpl. unfold streakSum. simpl. lia.
  - simpl in *. apply NoDup_cons in Hnd as [Hh Hnd].
    apply not_elem_of_cons in Hproto as [Hp Hproto].
    rewrite IH; [| done | done |].
    + unfold obj_set. rewrite bool_decide_eq_false_2 by done.
      rewrite sumValues_insert_fresh by apply Hfresh, list_elem_of_here.
      unfold streakSum. simpl. lia.
    + intros h' Hin. unfold obj_set. rewrite bool_decide_eq_false_2 by done.
      rewrite lookup_insert_ne.
      * by apply Hfresh, list_elem_of_further.
      * intros Heq. apply Hh. rewrite Heq.
        by apply (list_elem_of_fmap_2
                    (fun h => toLowerCase pf (habit_name h))).
Qed.

Lemma userHabits_sum (habits : list Habit) :
  NoDup (map (fun h => toLowerCase pf (habit_name h)) habits) →
  "__proto__" ∉ map (fun h => toLowerCase pf (habit_name h)) habits →
  sumValues (userHabits pf habits) = streakSum habits.
Proof.
  intros Hnd Hproto. unfold userHabits.
  rewrite foldl_obj_set_sum by done.
  rewrite sumValues_empty. lia.
Qed.

(** The object [userHabits] builds: under a key, the streak of the last
    habit whose lower-cased name is that key; nothing under any other key,
    and nothing under the reserved key. *)
Lemma userHabits_lookup (habits : list Habit) (key : string) :
  userHabits pf habits !! key
  = if bool_decide (key = "__proto__") then None
    else streak
           <$> last (filter (fun h => toLowerCase pf (habit_name h) = key)
                       habits).
Proof.
  unfold userHabits. induction habits as [|h hs IH] using rev_ind.
  - simpl. rewrite lookup_empty. by case_bool_decide.
  - rewrite foldl_app, filter_app. simpl.
    set (acc := foldl _ ∅ hs) in *. unfold obj_set.
    destruct (decide (toLowerCase pf (habit_name h) = "__proto__"))
      as [Hproto | Hproto].
    + rewrite (bool_decide_eq_true_2 _ Hproto), IH.
      case_bool_decide as Hkey; [done |].
      rewrite filter_cons_False by congruence.
      by rewrite filter_nil, app_nil_r.
    + rewrite (bool_decide_eq_false_2 _ Hproto).
      destruct (decide (toLowerCase pf (habit_name h) = key)) as [Hk | Hk].
      * rewrite Hk, lookup_insert_eq. rewrite Hk in Hproto.
        rewrite bool_decide_eq_false_2 by done.
        rewrite filter_cons_True by done.
        by rewrite filter_nil, last_snoc.
      * rewrite lookup_insert_ne by done. rewrite IH.
        rewrite filter_cons_False by done.
        by rewrite filter_nil, app_nil_r.
Qed.

End LeaderboardFacts.

Lemma orZero_Some (n : Z) : orZero (Some n) = n.
Proof. simpl. destruct (n =? 0) eqn:Hn; [| done]. apply Z.eqb_eq in Hn. lia. Qed.

Lemma rankKey_withTotal (p : Person) :
  rankKey (withTotal p) = sumValues (person_habits p).
Proof. unfold rankKey, withTotal. cbn [totalStreak]. apply orZero_Some. Qed.

Lemma byTotalStreakDesc_key (a b : Person) :
  byTotalStreakDesc a b = rankKey b - rankKey a.
Proof. reflexivity. Qed.

Lemma getLeaderboardData_insert (pf : Platform) (habits : list Habit) :
  getLeaderboardData pf habits
  = sort_insert byTotalStreakDesc (withTotal (userEntry pf habits))
      (Array_sort byTotalStreakDesc (map withTotal MOCK_FRIENDS)).
Proof. reflexivity. Qed.

Lemma MOCK_FRIENDS_not_user :
  Forall (fun p => isUser p = None) MOCK_FRIENDS.
Proof. unfold MOCK_FRIENDS. repeat constructor. Qed.

(** The board with a user total of 68, the total of the peer Sam: the user
    is listed first of the two. *)
Example leaderboard_tie_scenario :
  map (fun p => (person_name p, totalStreak p))
    (getLeaderboardData Device.platform [with_streak Sample.fresh 68])
  = [("Alex", Some 75); ("You", Some 68); ("Sam", Some 68);
     ("Taylor", Some 63); ("Jordan", Some 60)].
Proof. vm_compute. reflexivity. Qed.

(** C5, as amended.  The leaderboard always contains the entry of the user,
    named "You" and flagged [isUser], and it is the only flagged entry.  Its
    [totalStreak] is the sum of the values of the map from lower-cased habit
    name to streak that the projection builds.  In that map a later habit
    replaces an earlier one of the same lower-cased name: what it holds
    under a key is the streak of the last habit whose lower-cased name is
    that key, it holds nothing under the lower-cased name of no habit, and
    nothing under the reserved key.  The total equals the sum of the streaks
    of all habits whenever the lower-cased names are pairwise distinct and
    none of them is the reserved key; with no habits it is 0. *)
Theorem leaderboard_user_total (pf : Platform) (habits : list Habit) :
  let you := withTotal (userEntry pf habits) in
  let lowerName := fun h => toLowerCase pf (habit_name h) in
  let keys := map lowerName habits in
  you ∈ getLeaderboardData pf habits
  ∧ isUser you = Some true ∧ person_name you = "You"
  ∧ (∀ p, p ∈ getLeaderboardData pf habits → isUser p = Some true → p = you)
  ∧ person_habits you = userHabits pf habits
  ∧ totalStreak you = Some (sumValues (userHabits pf habits))
  ∧ (∀ key, key ≠ "__proto__" →
       userHabits pf habits !! key
       = streak <$> last (filter (fun h => lowerName h = key) habits))
  ∧ (∀ earlier h later, habits = (earlier ++ h :: later)%list →
       lowerName h ≠ "__proto__" → lowerName h ∉ map lowerName later →
       userHabits pf habits !! lowerName h = Some (streak h))
  ∧ (∀ key, key ∉ keys → userHabits pf habits !! key = None)
  ∧ userHabits pf habits !! "__proto__" = None
  ∧ (NoDup keys → "__proto__" ∉ keys →
       totalStreak you = Some (streakSum habits))
  ∧ (habits = [] → totalStreak you = Some 0).
Proof.
  intros you lowerName keys. subst you keys lowerName. cbv beta.
  split_and!.
  - unfold getLeaderboardData. rewrite Array_sort_perm. simpl.
    apply list_elem_of_here.
  - done.
  - done.
  - intros p Hin Huser. unfold getLeaderboardData in Hin.
    rewrite Array_sort_perm in Hin. simpl in Hin.
    apply elem_of_cons in Hin. destruct Hin as [Hp | Hin]; [exact Hp |].
    change (p ∈ map withTotal MOCK_FRIENDS) in Hin.
    apply list_elem_of_fmap in Hin as (q & -> & Hq).
    pose proof MOCK_FRIENDS_not_user as Hnone.
    rewrite Forall_forall in Hnone. specialize (Hnone q Hq).
    simpl in Huser. congruence.
  - done.
  - done.
  - intros key Hkey. rewrite userHabits_lookup.
    by rewrite bool_decide_eq_false_2.
  - intros earlier h later -> Hproto Hlast. rewrite userHabits_lookup.
    rewrite bool_decide_eq_false_2 by done.
    rewrite filter_app, filter_cons_True by done.
    rewrite (filter_no_match _ later); [by rewrite last_snoc |].
    intros h' Hin Heq. apply Hlast. rewrite <- Heq.
    by apply (list_elem_of_fmap_2 (fun h => toLowerCase pf (habit_name h))).
  - intros key Hkey. rewrite userHabits_lookup.
    case_bool_decide; [done |].
    rewrite filter_no_match; [done |].
    intros h Hin Heq. apply Hkey. rewrite <- Heq.
    by apply (list_elem_of_fmap_2 (fun h => toLowerCase pf (habit_name h))).
  - by rewrite userHabits_lookup.
  - intros Hnd Hproto. simpl. f_equal. by apply userHabits_sum.
  - intros ->. simpl. unfold userHabits. simpl. by rewrite sumValues_empty.
Qed.

(** C5 as the claim words it fails when two habits share a lower-cased name:
    with "Run" at streak 3 and "run" at streak 4 the user's total is 4, and
    the streaks sum to 7. *)
Lemma leaderboard_user_total_same_name :
  let hs := [Sample.doneYesterday; Sample.sameNameOtherCase] in
  map (fun p => (person_name p, isUser p, totalStreak p))
    (getLeaderboardData Device.platform hs)
  = [("Alex", None, Some 75); ("Sam", None, Some 68);
     ("Taylor", None, Some 63); ("Jordan", None, Some 60);
     ("You", Some true, Some 4)]
  ∧ streakSum hs = 7.
Proof. vm_compute. split; reflexivity. Qed.

(** C6.  The list [getLeaderboardData] returns is a rearrangement of the
    user's entry followed by the fixed peers, each with its total filled in;
    it is in descending order of [totalStreak]; entries of equal total keep
    the order in which they were constructed, and it is the only list with
    these two properties; and so the user's entry comes after peers of
    strictly greater total only, and before every peer whose total equals
    its own. *)
Theorem leaderboard_sorted_stable (pf : Platform) (habits : list Habit) :
  let you := withTotal (userEntry pf habits) in
  let entries := map withTotal (userEntry pf habits :: MOCK_FRIENDS) in
  let result := getLeaderboardData pf habits in
  result ≡ₚ entries
  ∧ Forall (fun p => totalStreak p = Some (rankKey p)) result
  ∧ StronglySorted (descending rankKey) result
  ∧ (∀ k, filter (fun p => rankKey p = k) result
          = filter (fun p => rankKey p = k) entries)
  ∧ (∀ l', StronglySorted (descending rankKey) l' →
       (∀ k, filter (fun p => rankKey p = k) l'
             = filter (fun p => rankKey p = k) entries) →
       l' = result)
  ∧ ∃ before after,
      result = (before ++ you :: after)%list
      ∧ (before ++ after)%list ≡ₚ map withTotal MOCK_FRIENDS
      ∧ Forall (fun p => rankKey you < rankKey p) before
      ∧ Forall (fun p => rankKey p ≤ rankKey you) after.
Proof.
  intros you entries result.
  assert (Hperm : result ≡ₚ entries) by apply Array_sort_perm.
  assert (Hsorted : StronglySorted (descending rankKey) result).
  { apply (Array_sort_strongly_sorted byTotalStreakDesc rankKey).
    apply byTotalStreakDesc_key. }
  split_and!.
  - exact Hperm.
  - rewrite Hperm. subst entries. apply Forall_fmap, Forall_true.
    intros p. simpl. by rewrite rankKey_withTotal.
  - exact Hsorted.
  - intros k. apply (Array_sort_stable byTotalStreakDesc rankKey).
    apply byTotalStreakDesc_key.
  - intros l' Hl' Hgroups.
    apply (stable_descending_unique rankKey); [done | done |].
    intros k. rewrite Hgroups. symmetry.
    apply (Array_sort_stable byTotalStreakDesc rankKey).
    apply byTotalStreakDesc_key.
  - subst result you. rewrite getLeaderboardData_insert in *.
    destruct (sort_insert_split byTotalStreakDesc
                (withTotal (userEntry pf habits))
                (Array_sort byTotalStreakDesc (map withTotal MOCK_FRIENDS)))
      as (before & after & E & Epeers & Hbefore).
    exists before, after. rewrite E in Hsorted |- *.
    split_and!.
    + done.
    + rewrite <- Epeers. apply Array_sort_perm.
    + eapply Forall_impl; [exact Hbefore |].
      intros p Hp. simpl in Hp. rewrite byTotalStreakDesc_key in Hp. lia.
    + apply StronglySorted_app_1_r, StronglySorted_cons in Hsorted
        as [Hafter _].
      exact Hafter.
Qed.

(** * Further properties of the code *)

(** ** The date predicates and the reset *)

Lemma setDate_previous_neq (d : LocalDate) : setDate_previous d ≠ d.
Proof.
  unfold setDate_previous. destruct d as [y m k]; simpl.
  destruct (1 <=? k - 1); [intros [= ?]; lia |].
  destruct (m =? 0) eqn:Hm.
  - apply Z.eqb_eq in Hm. intros [= ? ? ?]. lia.
  - intros [= ? ?]. lia.
Qed.

(** X1.  No timestamp is both today and yesterday: [isToday] and
    [isYesterday] never hold together, and both are false for [null], for
    the empty string and for a text that is not a date. *)
Theorem isToday_isYesterday_exclusive
    (pf : Platform) (clk : Clock) (dateString : option string) :
  isToday pf clk dateString && isYesterday pf clk dateString = false
  ∧ (falsy dateString = true →
       isToday pf clk dateString = false
       ∧ isYesterday pf clk dateString = false)
  ∧ (∀ s, dateString = Some s → Date_parse pf s = None →
       isToday pf clk dateString = false
       ∧ isYesterday pf clk dateString = false).
Proof.
  split_and!.
  - apply not_true_is_false. rewrite andb_true_iff.
    rewrite isToday_true_iff, isYesterday_true_iff.
    intros [(s & -> & _ & Ht) (s' & [= <-] & _ & Hy)].
    rewrite Ht in Hy. injection Hy as Hy.
    by apply (setDate_previous_neq (today clk)).
  - intros Hf. by rewrite isToday_falsy, isYesterday_falsy.
  - intros s -> Hp. split; apply not_true_is_false.
    + rewrite isToday_true_iff. intros (s' & [= <-] & _ & ?). congruence.
    + rewrite isYesterday_true_iff. intros (s' & [= <-] & _ & ?). congruence.
Qed.

(** X2.  At a fixed moment [resetStreaksIfNeeded] is idempotent: a second
    pass over its own result changes nothing. *)
Theorem resetStreaksIfNeeded_second_pass
    (pf : Platform) (clk : Clock) (habits : list Habit) :
  resetStreaksIfNeeded pf clk (resetStreaksIfNeeded pf clk habits)
  = resetStreaksIfNeeded pf clk habits.
Proof.
  unfold resetStreaksIfNeeded. rewrite map_map.
  apply map_ext. intros habit. apply resetStreak_idempotent.
Qed.

(** X3.  [resetStreaksIfNeeded] only ever keeps a streak or sets it to 0:
    position by position the streak of the result is the streak of the
    input or 0, a habit completed today or yesterday comes back unchanged,
    and a collection of non-negative streaks stays one. *)
Theorem resetStreaksIfNeeded_keeps_or_zeroes
    (pf : Platform) (clk : Clock) (habits : list Habit) :
  let result := resetStreaksIfNeeded pf clk habits in
  (∀ i h, habits !! i = Some h →
     ∃ h', result !! i = Some h'
       ∧ (streak h' = streak h ∨ streak h' = 0)
       ∧ (isToday pf clk (lastCompleted h) = true
          ∨ isYesterday pf clk (lastCompleted h) = true → h' = h))
  ∧ (Forall (fun h => 0 ≤ streak h) habits →
     Forall (fun h => 0 ≤ streak h) result).
Proof.
  intros result. subst result.
  assert (Hcases : ∀ h, resetStreak pf clk h = h
                        ∨ resetStreak pf clk h = with_streak h 0).
  { intros h. unfold resetStreak.
    destruct (falsy (lastCompleted h)); [by left |].
    destruct (negb (isToday pf clk (lastCompleted h))
              && negb (isYesterday pf clk (lastCompleted h)));
      [by right | by left]. }
  split.
  - intros i h Hi. exists (resetStreak pf clk h).
    rewrite resetStreaksIfNeeded_lookup, Hi. split_and!; [done | |].
    + destruct (Hcases h) as [-> | ->]; [by left | by right].
    + intros Hrecent. apply resetStreak_recent.
      destruct Hrecent as [-> | ->]; [done | apply orb_true_r].
  - intros Hall. unfold resetStreaksIfNeeded. apply Forall_fmap.
    eapply Forall_impl; [exact Hall |]. intros h Hh. simpl in *.
    destruct (Hcases h) as [-> | ->]; simpl; lia.
Qed.

(** ** Toggling, as the card shows it and as the reset sees it *)

(** X4.  Pressing the check button flips the check mark: at a moment whose
    own timestamp reads as today, the card of the toggled habit is marked
    completed exactly when the card of the habit was not. *)
Theorem HabitCard_toggle_flips_check
    (pf : Platform) (clk : Clock) (habit : Habit) :
  isToday pf clk (Some (toISOString clk)) = true →
  let before := HabitCard pf clk habit in
  let after := HabitCard pf clk (toggleCompletion pf clk habit) in
  card_completed after = negb (card_completed before)
  ∧ card_checkText after = (if card_completed before then "○" else "✓")
  ∧ card_habitId after = card_habitId before
  ∧ card_habitName after = card_habitName before.
Proof.
  intros Hnow before after. subst before after. simpl.
  destruct (isToday pf clk (lastCompleted habit)) eqn:Ht.
  - rewrite (toggleCompletion_undo pf clk habit Ht). simpl. done.
  - rewrite (toggleCompletion_complete pf clk habit Ht). simpl.
    by rewrite Hnow.
Qed.

Lemma HabitCard_toggle_flips_check_witness :
  card_checkText (HabitCard Device.platform Sample.clock Sample.fresh) = "○"
  ∧ card_checkText
      (HabitCard Device.platform Sample.clock
         (toggleCompletion Device.platform Sample.clock Sample.fresh))
    = "✓".
Proof.
  split; [reflexivity |].
  exact (proj1 (proj2 (HabitCard_toggle_flips_check Device.platform
                         Sample.clock Sample.fresh eq_refl))).
Defined.

Lemma resetStreak_toggleCompletion
    (pf : Platform) (clk : Clock) (habit : Habit) :
  isToday pf clk (Some (toISOString clk)) = true →
  resetStreak pf clk (toggleCompletion pf clk habit)
  = toggleCompletion pf clk habit.
Proof.
  intros Hnow. destruct (isToday pf clk (lastCompleted habit)) eqn:Ht.
  - rewrite (toggleCompletion_undo pf clk habit Ht).
    by apply resetStreak_falsy.
  - rewrite (toggleCompletion_complete pf clk habit Ht).
    apply resetStreak_recent. simpl. by rewrite Hnow.
Qed.

(** X5.  A toggle never leaves work for the reset: if the reset has nothing
    to change in a collection, then, at a moment whose own timestamp reads
    as today, it has nothing to change in the collection that
    [toggleHabit] computes from it. *)
Theorem toggle_keeps_reset_stable
    (pf : Platform) (clk : Clock) (id : string) (habits : list Habit) :
  isToday pf clk (Some (toISOString clk)) = true →
  resetStreaksIfNeeded pf clk habits = habits →
  resetStreaksIfNeeded pf clk (map (toggleIfMatch pf clk id) habits)
  = map (toggleIfMatch pf clk id) habits.
Proof.
  intros Hnow. unfold resetStreaksIfNeeded.
  induction habits as [|h hs IH]; simpl; [done |].
  intros [= Hh Hhs]. rewrite (IH Hhs). f_equal.
  unfold toggleIfMatch. case_bool_decide; [| exact Hh].
  by apply resetStreak_toggleCompletion.
Qed.

Lemma toggle_keeps_reset_stable_witness :
  resetStreaksIfNeeded Device.platform Sample.clock
    (map (toggleIfMatch Device.platform Sample.clock
            (habit_id Sample.doneYesterday))
       [Sample.fresh; Sample.doneYesterday])
  = map (toggleIfMatch Device.platform Sample.clock
           (habit_id Sample.doneYesterday))
      [Sample.fresh; Sample.doneYesterday].
Proof.
  apply (toggle_keeps_reset_stable Device.platform Sample.clock
           (habit_id Sample.doneYesterday)
           [Sample.fresh; Sample.doneYesterday]);
    reflexivity.
Defined.

(** X6.  A lapsed streak survives if the habit is toggled before the reset
    runs: for a habit last completed before yesterday, toggling adds 1 to
    the stale streak and a later reset keeps the sum, whereas resetting
    first and toggling then gives 1. *)
Theorem toggle_before_reset_keeps_stale_streak
    (pf : Platform) (clk : Clock) (habit : Habit) (s : string) :
  isToday pf clk (Some (toISOString clk)) = true →
  lastCompleted habit = Some s → s ≠ "" →
  Date_parse pf s ≠ Some (today clk) →
  Date_parse pf s ≠ Some (setDate_previous (today clk)) →
  streak (resetStreak pf clk (toggleCompletion pf clk habit))
  = streak habit + 1
  ∧ streak (toggleCompletion pf clk (resetStreak pf clk habit)) = 1.
Proof.
  intros Hnow Hl Hs Ht Hy.
  assert (Htoday : isToday pf clk (lastCompleted habit) = false).
  { apply not_true_is_false. rewrite isToday_true_iff, Hl.
    by intros (s' & [= <-] & _ & ?). }
  assert (Hyest : isYesterday pf clk (lastCompleted habit) = false).
  { apply not_true_is_false. rewrite isYesterday_true_iff, Hl.
    by intros (s' & [= <-] & _ & ?). }
  split.
  - rewrite resetStreak_toggleCompletion by done.
    by rewrite (toggleCompletion_complete pf clk habit Htoday).
  - rewrite resetStreak_lapsed; [| | done | done].
    + rewrite toggleCompletion_complete by done. done.
    + apply falsy_false_iff. by exists s.
Qed.

Lemma toggle_before_reset_keeps_stale_streak_witness :
  streak (resetStreak Device.platform Sample.clock
            (toggleCompletion Device.platform Sample.clock Sample.lapsed))
  = 6
  ∧ streak (toggleCompletion Device.platform Sample.clock
              (resetStreak Device.platform Sample.clock Sample.lapsed))
    = 1.
Proof.
  apply (toggle_before_reset_keeps_stale_streak Device.platform Sample.clock
           Sample.lapsed "2024-03-07T08:00:00.000Z").
  - reflexivity.
  - reflexivity.
  - discriminate.
  - vm_compute. discriminate.
  - vm_compute. discriminate.
Defined.

(** ** Saving and loading: failures and the untouched cases *)

(** X7.  A rejected write is swallowed.  When [AsyncStorage.setItem]
    rejects, [toggleHabit], a confirmed [deleteHabit] and [addHabit] with a
    name that is not white space only still return normally and still
    replace the collection in memory, the storage keeps its old content, and
    the only trace is one "Save habits error:" line on the console. *)
Theorem rejected_write_is_swallowed
    (pf : Platform) (clk : Clock) (id : string) (w : World) :
  setItem_rejects w = true →
  (let r := toggleHabit pf clk id w in
   r.2 = Ok tt
   ∧ habits r.1 = map (toggleIfMatch pf clk id) (habits w)
   ∧ storage r.1 = storage w
   ∧ console r.1 = "Save habits error:" :: console w)
  ∧ (let r := deleteHabit pf id PressDelete w in
     r.2 = Ok tt
     ∧ habits r.1 = filter (fun h => habit_id h ≠ id) (habits w)
     ∧ storage r.1 = storage w
     ∧ console r.1 = "Save habits error:" :: console w)
  ∧ (whitespaceOnly (newHabitName w) = false →
     let r := addHabit pf clk w in
     r.2 = Ok tt
     ∧ length (habits r.1) = S (length (habits w))
     ∧ storage r.1 = storage w
     ∧ console r.1 = "Save habits error:" :: console w).
Proof.
  intros Hrej. split_and!.
  - unfold toggleHabit, saveHabits. run_js. by rewrite Hrej.
  - unfold deleteHabit, saveHabits. run_js. by rewrite Hrej.
  - intros Hws. unfold addHabit, saveHabits. run_js.
    rewrite bool_decide_eq_false_2
      by (rewrite trim_empty_iff, Hws; discriminate).
    rewrite Hrej. simpl. split_and!; try done.
    rewrite length_app. simpl. lia.
Qed.

Lemma rejected_write_is_swallowed_witness :
  let w :=
    {| screen := add; habits := [Sample.fresh];
       newHabitName := utf8 0xA0 ++ "Walk";
       storage := ∅; getItem_rejects := false; setItem_rejects := true;
       console := []; alerts := [] |} in
  (let r := toggleHabit Device.platform Sample.clock
              (habit_id Sample.fresh) w in
   r.2 = Ok tt
   ∧ habits r.1
     = map (toggleIfMatch Device.platform Sample.clock
              (habit_id Sample.fresh)) [Sample.fresh]
   ∧ storage r.1 = ∅
   ∧ console r.1 = ["Save habits error:"])
  ∧ (let r := addHabit Device.platform Sample.clock w in
     r.2 = Ok tt
     ∧ length (habits r.1) = 2%nat
     ∧ storage r.1 = ∅
     ∧ console r.1 = ["Save habits error:"]).
Proof.
  intros w.
  pose proof (rejected_write_is_swallowed Device.platform Sample.clock
                (habit_id Sample.fresh) w eq_refl) as (Htoggle & _ & Hadd).
  exact (conj Htoggle (Hadd eq_refl)).
Defined.

(** X10.  [loadHabits] with nothing to read.  When the key is absent, or
    holds the empty string, the collection becomes empty and nothing is
    written or logged; when the read itself rejects, the collection is left
    as it was and one "Load habits error:" line is logged.  In both cases
    the storage is untouched and the call returns normally. *)
Theorem loadHabits_nothing_to_read
    (pf : Platform) (clk : Clock) (w : World) :
  let r := loadHabits pf clk w in
  (getItem_rejects w = false →
   storage w !! HABITS_KEY = None ∨ storage w !! HABITS_KEY = Some "" →
   r.2 = Ok tt ∧ habits r.1 = [] ∧ storage r.1 = storage w
   ∧ console r.1 = console w)
  ∧ (getItem_rejects w = true →
     r.2 = Ok tt ∧ habits r.1 = habits w ∧ storage r.1 = storage w
     ∧ console r.1 = "Load habits error:" :: console w).
Proof.
  intros r. subst r. split.
  - intros Hrej Hnone. rewrite loadHabits_nothing_stored; [done | done |].
    by destruct Hnone as [-> | ->].
  - intros Hrej. by rewrite loadHabits_read_failure.
Qed.

(** X11.  [loadHabits] writes back only what the reset changed.  For stored
    text that parses: the collection in memory becomes the reset list; when
    the reset list serializes like the parsed one (in particular when the
    reset changed no habit) the storage is left byte for byte as it was;
    otherwise, writes being accepted, the key holds the serialized reset
    list and every other key is untouched. *)
Theorem loadHabits_writes_back_only_changes
    (pf : Platform) (clk : Clock) (w : World) (text : string)
    (hs : list Habit) :
  getItem_rejects w = false →
  storage w !! HABITS_KEY = Some text → text ≠ "" →
  JSON_parse pf text = Some hs →
  let resetHabits := resetStreaksIfNeeded pf clk hs in
  let r := loadHabits pf clk w in
  r.2 = Ok tt
  ∧ habits r.1 = resetHabits
  ∧ (JSON_stringify pf hs = JSON_stringify pf resetHabits →
     storage r.1 = storage w ∧ console r.1 = console w)
  ∧ (resetHabits = hs → storage r.1 = storage w)
  ∧ (JSON_stringify pf hs ≠ JSON_stringify pf resetHabits →
     setItem_rejects w = false →
     storage r.1 = <[HABITS_KEY := JSON_stringify pf resetHabits]> (storage w)
     ∧ ∀ key, key ≠ HABITS_KEY → storage r.1 !! key = storage w !! key).
Proof.
  intros Hrej Hst Hne Hparse resetHabits r. subst r.
  rewrite (loadHabits_parsed pf clk w text hs) by done. fold resetHabits.
  case_bool_decide as Hdiff.
  - destruct (saveHabits_run pf resetHabits (setHabits resetHabits w).1)
      as (w' & -> & _ & Hh & _ & _ & _ & _ & Hsto & _).
    simpl in *. split_and!; try done.
    + intros Heq. destruct Hdiff. by rewrite Heq.
    + intros _ Hwr. rewrite Hwr in Hsto. split; [done |].
      intros key Hkey. by rewrite Hsto, lookup_insert_ne.
  - simpl. split_and!; try done.
Qed.

Lemma loadHabits_writes_back_only_changes_witness :
  let w :=
    Sample.world [] "" {[ HABITS_KEY := Device.stringify [Sample.lapsed] ]} in
  habits (loadHabits Device.platform Sample.clock w).1
  = [with_streak Sample.lapsed 0].
Proof.
  intros w.
  refine (proj1 (proj2
    (loadHabits_writes_back_only_changes Device.platform Sample.clock w
       (Device.stringify [Sample.lapsed]) [Sample.lapsed] _ _ _ _))).
  - reflexivity.
  - vm_compute. reflexivity.
  - vm_compute. discriminate.
  - vm_compute. reflexivity.
Defined.

(** ** Adding and deleting compose *)

Lemma addHabit_run_habits (pf : Platform) (clk : Clock) (w : World) :
  whitespaceOnly (newHabitName w) = false →
  ∃ w', addHabit pf clk w = (w', Ok tt)
    ∧ habits w'
      = (habits w
         ++ [{| habit_id := pretty (Date_now clk);
                habit_name := trim (newHabitName w); streak := 0;
                lastCompleted := None; createdAt := toISOString clk |}])%list.
Proof.
  intros Hws. unfold addHabit. run_js.
  rewrite bool_decide_eq_false_2
    by (rewrite trim_empty_iff, Hws; discriminate).
  match goal with |- context [saveHabits pf ?hs ?w1] =>
    destruct (saveHabits_run pf hs w1) as (w' & -> & _ & Hh & _)
  end.
  simpl in *. eexists. split; [reflexivity | exact Hh].
Qed.

(** X12.  Adding a habit and then deleting it by its id.  After [addHabit]
    with a proper name, a confirmed [deleteHabit] of the new id (the
    decimal text of [Date.now()]) leaves the habits that were there before
    minus those that carry the same id; when no earlier habit carries it,
    the collection is the one before the addition. *)
Theorem addHabit_then_deleteHabit
    (pf : Platform) (clk : Clock) (w : World) :
  whitespaceOnly (newHabitName w) = false →
  let id := pretty (Date_now clk) in
  let w' := (deleteHabit pf id PressDelete (addHabit pf clk w).1).1 in
  habits w' = filter (fun h => habit_id h ≠ id) (habits w)
  ∧ ((∀ h, h ∈ habits w → habit_id h ≠ id) → habits w' = habits w).
Proof.
  intros Hws id w'. subst w'.
  destruct (addHabit_run_habits pf clk w Hws) as (wa & Ea & Ha).
  rewrite Ea. simpl.
  destruct (deleteHabit_run pf id PressDelete wa) as (wd & -> & Hd & _).
  simpl. rewrite Hd, Ha, filter_app.
  rewrite (filter_cons_False _ _ []) by (simpl; by intros ?).
  rewrite filter_nil, app_nil_r.
  split; [done |].
  intros Hfresh. generalize (habits w), Hfresh. clear. intros hs Hfresh.
  induction hs as [|h hs IH]; [done |].
  rewrite filter_cons_True by apply Hfresh, list_elem_of_here.
  f_equal. apply IH. intros h' Hin. by apply Hfresh, list_elem_of_further.
Qed.

Lemma addHabit_then_deleteHabit_witness :
  let w := Sample.world [Sample.fresh; Sample.doneToday] " Walk " ∅ in
  habits (deleteHabit Device.platform "1710072000000" PressDelete
            (addHabit Device.platform Sample.clock w).1).1
  = [Sample.fresh; Sample.doneToday].
Proof.
  intros w.
  refine (proj2 (addHabit_then_deleteHabit Device.platform Sample.clock w _)
            _).
  - reflexivity.
  - intros h Hin. vm_compute in Hin.
    repeat (apply elem_of_cons in Hin as [-> | Hin]); try discriminate.
    by apply elem_of_nil in Hin.
Defined.

(** ** Sessions *)

Lemma handle_run (pf : Platform) (clk : Clock) (e : Event) (w : World) :
  ∃ w', handle pf clk e w = (w', Ok tt)
    ∧ getItem_rejects w' = getItem_rejects w
    ∧ setItem_rejects w' = setItem_rejects w
    ∧ ((habits w' = habits w ∧ storage w' = storage w)
       ∨ storage w'
         = (if setItem_rejects w then storage w
            else <[HABITS_KEY := JSON_stringify pf (habits w')]> (storage w)))
    ∧ (habits w' = habits w
       ∨ (∃ id, habits w' = map (toggleIfMatch pf clk id) (habits w))
       ∨ (∃ id, habits w' = filter (fun h => habit_id h ≠ id) (habits w))
       ∨ (trim (newHabitName w) ≠ ""
          ∧ habits w'
            = (habits w
               ++ [{| habit_id := pretty (Date_now clk);
                      habit_name := trim (newHabitName w); streak := 0;
                      lastCompleted := None;
                      createdAt := toISOString clk |}])%list)).
Proof.
  destruct e as [id | id choice | | | | text |]; simpl.
  - unfold toggleHabit, saveHabits. run_js.
    destruct (setItem_rejects w) eqn:Hrej; simpl; eexists;
      (split; [reflexivity |]); simpl; rewrite ?Hrej;
      split_and!; eauto.
  - unfold deleteHabit, saveHabits. run_js.
    destruct choice; simpl;
      try (eexists; (split; [reflexivity |]); simpl; split_and!; eauto; fail).
    destruct (setItem_rejects w) eqn:Hrej; simpl; eexists;
      (split; [reflexivity |]); simpl; rewrite ?Hrej;
      split_and!; eauto.
  - run_js. eexists; (split; [reflexivity |]); simpl; split_and!; eauto.
  - run_js. eexists; (split; [reflexivity |]); simpl; split_and!; eauto.
  - run_js. eexists; (split; [reflexivity |]); simpl; split_and!; eauto.
  - run_js. eexists; (split; [reflexivity |]); simpl; split_and!; eauto.
  - unfold addHabit, saveHabits. run_js.
    case_bool_decide as Hblank; simpl.
    { eexists; (split; [reflexivity |]); simpl; split_and!; eauto. }
    destruct (setItem_rejects w) eqn:Hrej; simpl; eexists;
      (split; [reflexivity |]); simpl; rewrite ?Hrej;
      split_and!; eauto 10.
Qed.

(** X8.  Storage follows memory.  If writes are accepted and the stored
    text is the serialization of the collection in memory (or nothing is
    stored and the collection is empty), this is still so after any
    session: every handler that replaces the collection writes it, and no
    other handler touches either. *)
Theorem session_keeps_persisted (pf : Platform) (w0 w : World) :
  setItem_rejects w0 = false → persisted pf w0 →
  session pf w0 w →
  persisted pf w ∧ setItem_rejects w = false.
Proof.
  intros Hwr Hp0 Hsession.
  induction Hsession as [w | w0 w clk e _ IH _]; [done |].
  destruct (IH Hwr Hp0) as [Hp Hw].
  destruct (handle_run pf clk e w) as (w' & -> & _ & Hs & Hsto & _).
  simpl. split; [| congruence].
  destruct Hsto as [[Hh Hst] | Hst].
  - unfold persisted. by rewrite Hh, Hst.
  - left. rewrite Hst, Hw. apply lookup_insert_eq.
Qed.

Lemma Scenario_session : session Device.platform Scenario.w0 Scenario.w4.
Proof.
  unfold Scenario.w4, Scenario.w3, Scenario.w2, Scenario.w1.
  repeat apply session_step; try apply session_start.
  - exact I.
  - exact I.
  - exact I.
  - vm_compute. apply list_elem_of_here.
Qed.

Lemma session_keeps_persisted_witness :
  persisted Device.platform Scenario.w4.
Proof.
  refine (proj1 (session_keeps_persisted Device.platform Scenario.w0
                   Scenario.w4 _ _ Scenario_session)).
  - reflexivity.
  - right. split; reflexivity.
Defined.

(** X9.  What a session can make of the collection.  No handler ever
    raises, and if every habit has a streak ≥ 0 and a name that is
    non-empty, does not start with white space and does not end with white
    space (so that trimming it changes nothing), then so has every habit
    after any session; in particular this holds of everything created from
    an empty collection. *)
Theorem session_keeps_habits_well_formed (pf : Platform) (w0 w : World) :
  let wellFormed := fun h =>
    0 ≤ streak h ∧ habit_name h ≠ ""
    ∧ ¬ leadingWhiteSpace (habit_name h)
    ∧ ¬ trailingWhiteSpace (habit_name h)
    ∧ trim (habit_name h) = habit_name h in
  Forall wellFormed (habits w0) →
  session pf w0 w →
  Forall wellFormed (habits w)
  ∧ ∀ clk e, (handle pf clk e w).2 = Ok tt.
Proof.
  intros wellFormed Hwf0 Hsession. split.
  - induction Hsession as [w | w0 w clk e _ IH _]; [done |].
    specialize (IH Hwf0).
    destruct (handle_run pf clk e w) as (w' & -> & _ & _ & _ & Hshape).
    simpl.
    destruct Hshape as [-> | [(id & ->) | [(id & ->) | (Hname & ->)]]].
    + done.
    + apply Forall_fmap. eapply Forall_impl; [exact IH |].
      intros h (Hs & Hn). unfold wellFormed. simpl.
      unfold toggleIfMatch. case_bool_decide; [| done].
      destruct (toggleCompletion_fields pf clk h) as (_ & -> & _).
      split; [by apply toggleCompletion_nonneg | done].
    + rewrite Forall_forall in IH |- *. intros h Hin.
      apply list_elem_of_filter in Hin as [_ Hin]. by apply IH.
    + apply Forall_app. split; [done |].
      apply Forall_singleton. unfold wellFormed. simpl.
      split_and!; [done | done | apply trim_no_leading
                  | apply trim_no_trailing | apply trim_idempotent].
  - intros clk e.
    by destruct (handle_run pf clk e w) as (w' & -> & _).
Qed.

Lemma session_keeps_habits_well_formed_witness :
  Forall (fun h => 0 ≤ streak h ∧ habit_name h ≠ ""
                   ∧ ¬ leadingWhiteSpace (habit_name h)
                   ∧ ¬ trailingWhiteSpace (habit_name h)
                   ∧ trim (habit_name h) = habit_name h)
    (habits Scenario.w4).
Proof.
  refine (proj1 (session_keeps_habits_well_formed Device.platform
                   Scenario.w0 Scenario.w4 _ Scenario_session)).
  simpl. constructor.
Defined.

(** X13.  Habits survive a restart.  If the storage follows memory and the
    JSON codec reads back the (non-empty) text it writes for the
    collection, then starting the application again over the same storage
    and loading, at whatever moment, gives the collection back with the
    lapse reset of that moment applied. *)
Theorem relaunch_restores_collection
    (pf : Platform) (clk : Clock) (w : World) (setItem_fails : bool) :
  persisted pf w →
  JSON_parse pf (JSON_stringify pf (habits w)) = Some (habits w) →
  JSON_stringify pf (habits w) ≠ "" →
  habits (loadHabits pf clk (initialWorld (storage w) false setItem_fails)).1
  = resetStreaksIfNeeded pf clk (habits w).
Proof.
  intros [Hst | [Hst Hempty]] Hback Hnz.
  - rewrite (loadHabits_parsed pf clk _ (JSON_stringify pf (habits w))
               (habits w)) by done.
    case_bool_decide; [| done].
    match goal with |- context [saveHabits pf ?r ?w1] =>
      destruct (saveHabits_run pf r w1) as (w' & -> & _ & Hh & _)
    end.
    simpl. by rewrite Hh.
  - rewrite loadHabits_nothing_stored; [| done |].
    + by rewrite Hempty.
    + simpl. by rewrite Hst.
Qed.

Lemma relaunch_restores_collection_witness :
  habits (loadHabits Device.platform Sample.clock
            (initialWorld (storage Scenario.w4) false false)).1
  = habits Scenario.w4.
Proof.
  refine (relaunch_restores_collection Device.platform Sample.clock
            Scenario.w4 false _ _ _).
  - left. vm_compute. reflexivity.
  - vm_compute. reflexivity.
  - vm_compute. discriminate.
Defined.

(** ** Notifications and launch *)

Lemma setupNotifications_granted (nc : NotificationCenter) (w : World) :
  requestPermissions_rejects nc = false → permission nc = granted →
  cancelAll_rejects nc = false → schedule_rejects nc = false →
  setupNotifications nc w
  = ({| permission := permission nc; scheduled := [dailyReminder];
        requestPermissions_rejects := requestPermissions_rejects nc;
        cancelAll_rejects := cancelAll_rejects nc;
        schedule_rejects := schedule_rejects nc |}, w).
Proof.
  intros Hreq Hgranted Hcancel Hsched.
  destruct nc as [status reminders req cancel sched]. simpl in *. subst.
  reflexivity.
Qed.

(** X14.  [setupNotifications] leaves exactly one reminder.  When
    permission is granted and the service accepts the calls, whatever was
    scheduled before is replaced by the one daily reminder at 21:00, so
    running the setup again changes nothing; when permission is not
    granted, nothing is cancelled or scheduled.  In both cases the world of
    the application is untouched. *)
Theorem setupNotifications_one_reminder
    (nc : NotificationCenter) (w : World) :
  requestPermissions_rejects nc = false →
  (permission nc = granted →
   cancelAll_rejects nc = false → schedule_rejects nc = false →
   scheduled (setupNotifications nc w).1 = [dailyReminder]
   ∧ (setupNotifications nc w).2 = w
   ∧ setupNotifications (setupNotifications nc w).1 w
     = setupNotifications nc w)
  ∧ (permission nc ≠ granted → setupNotifications nc w = (nc, w)).
Proof.
  intros Hreq. split.
  - intros Hgranted Hcancel Hsched.
    rewrite (setupNotifications_granted nc w) by done. simpl.
    split_and!; [done | done |].
    by rewrite setupNotifications_granted.
  - intros Hdenied.
    unfold setupNotifications, setupNotifications_try, bindN,
      requestPermissionsAsync.
    rewrite Hreq. by rewrite bool_decide_eq_true_2.
Qed.

Lemma setupNotifications_one_reminder_witness :
  let nc :=
    {| permission := granted; scheduled := [dailyReminder; dailyReminder];
       requestPermissions_rejects := false; cancelAll_rejects := false;
       schedule_rejects := false |} in
  scheduled (setupNotifications nc Scenario.w0).1 = [dailyReminder].
Proof.
  intros nc.
  exact (proj1 (proj1 (setupNotifications_one_reminder nc Scenario.w0
                         eq_refl) eq_refl eq_refl eq_refl)).
Defined.

(** X15.  A failure of the notification service is logged and goes no
    further.  [setupNotifications] always returns; it changes nothing of
    the application but the console, where a rejected call leaves one
    "Notification setup error:" line.  A rejected permission request or
    cancellation leaves the schedule as it was; a rejected scheduling,
    coming after the cancellation, leaves no reminder at all. *)
Theorem setupNotifications_failure_logged
    (nc : NotificationCenter) (w : World) :
  let r := setupNotifications nc w in
  habits r.2 = habits w ∧ storage r.2 = storage w
  ∧ screen r.2 = screen w ∧ newHabitName r.2 = newHabitName w
  ∧ alerts r.2 = alerts w
  ∧ (requestPermissions_rejects nc = true →
     scheduled r.1 = scheduled nc
     ∧ console r.2 = "Notification setup error:" :: console w)
  ∧ (requestPermissions_rejects nc = false → permission nc = granted →
     cancelAll_rejects nc = true →
     scheduled r.1 = scheduled nc
     ∧ console r.2 = "Notification setup error:" :: console w)
  ∧ (requestPermissions_rejects nc = false → permission nc = granted →
     cancelAll_rejects nc = false → schedule_rejects nc = true →
     scheduled r.1 = []
     ∧ console r.2 = "Notification setup error:" :: console w).
Proof.
  intros r. subst r.
  unfold setupNotifications, setupNotifications_try, bindN,
    requestPermissionsAsync, cancelAllScheduledNotificationsAsync,
    scheduleNotificationAsync.
  destruct (requestPermissions_rejects nc) eqn:Hreq; simpl.
  { split_and!; done. }
  destruct (permission nc) eqn:Hperm; simpl; try (split_and!; done).
  destruct (cancelAll_rejects nc) eqn:Hcancel; simpl.
  { split_and!; done. }
  destruct (schedule_rejects nc) eqn:Hsched; simpl; split_and!; done.
Qed.

Lemma loadHabits_ignores_console
    (pf : Platform) (clk : Clock) (msg : string) (w : World) :
  habits (loadHabits pf clk (console_error msg w).1).1
  = habits (loadHabits pf clk w).1
  ∧ storage (loadHabits pf clk (console_error msg w).1).1
    = storage (loadHabits pf clk w).1.
Proof.
  set (w1 := (console_error msg w).1).
  assert (Hg : getItem_rejects w1 = getItem_rejects w) by done.
  assert (Hs : storage w1 = storage w) by done.
  destruct (getItem_rejects w) eqn:Hrej.
  { by rewrite !loadHabits_read_failure. }
  destruct (falsy (storage w !! HABITS_KEY)) eqn:Hf.
  { by rewrite !loadHabits_nothing_stored. }
  apply falsy_false_iff in Hf as (text & Hst & Hne).
  destruct (JSON_parse pf text) as [hs|] eqn:Hparse.
  - rewrite (loadHabits_parsed pf clk w text hs),
      (loadHabits_parsed pf clk w1 text hs) by done.
    case_bool_decide; [| done].
    destruct (saveHabits_run pf (resetStreaksIfNeeded pf clk hs)
                (setHabits (resetStreaksIfNeeded pf clk hs) w).1)
      as (wa & -> & _ & Ha & _ & _ & _ & _ & Hsa & _).
    destruct (saveHabits_run pf (resetStreaksIfNeeded pf clk hs)
                (setHabits (resetStreaksIfNeeded pf clk hs) w1).1)
      as (wb & -> & _ & Hb & _ & _ & _ & _ & Hsb & _).
    simpl in *. by rewrite Ha, Hb, Hsa, Hsb.
  - by rewrite (loadHabits_parse_failure pf clk w text),
      (loadHabits_parse_failure pf clk w1 text).
Qed.

(** X16.  The habits are loaded whatever the notification service does:
    after [initApp] the collection in memory and the storage are those
    that [loadHabits] alone produces, for every state of the notification
    service, failing or not. *)
Theorem initApp_loads_habits_regardless
    (pf : Platform) (clk : Clock) (nc : NotificationCenter) (w : World) :
  habits (initApp pf clk nc w).2 = habits (loadHabits pf clk w).1
  ∧ storage (initApp pf clk nc w).2 = storage (loadHabits pf clk w).1.
Proof.
  unfold initApp, setupNotifications.
  destruct (setupNotifications_try nc) as [nc' [[]|]]; simpl.
  - done.
  - apply loadHabits_ignores_console.
Qed.

(** ** The leaderboard screen *)

Lemma sumValues_nonneg (o : gmap string Z) :
  map_Forall (fun _ v => 0 ≤ v) o → 0 ≤ sumValues o.
Proof.
  unfold sumValues.
  apply (map_fold_weak_ind
           (fun r m => map_Forall (fun _ v => 0 ≤ v) m → 0 ≤ r)).
  - done.
  - intros k v m r Hk IH Hall.
    apply map_Forall_insert in Hall as [Hv Hm]; [| done].
    specialize (IH Hm). lia.
Qed.

Lemma sumValues_insert_le (k : string) (v : Z) (o : gmap string Z) :
  map_Forall (fun _ v => 0 ≤ v) o →
  sumValues (<[k := v]> o) ≤ sumValues o + v.
Proof.
  intros Hall. destruct (o !! k) as [old|] eqn:Hk.
  - rewrite <- (insert_delete_eq o k v).
    rewrite sumValues_insert_fresh by apply lookup_delete_eq.
    rewrite <- (insert_delete_id o k old Hk) at 2.
    rewrite sumValues_insert_fresh by apply lookup_delete_eq.
    pose proof (Hall k old Hk) as Hold. simpl in Hold. lia.
  - rewrite sumValues_insert_fresh by done. lia.
Qed.

Lemma foldl_obj_set_bounds (pf : Platform) (habits : list Habit)
    (acc : gmap string Z) :
  Forall (fun h => 0 ≤ streak h) habits →
  map_Forall (fun _ v => 0 ≤ v) acc →
  let o :=
    foldl (fun acc h =>
             obj_set (toLowerCase pf (habit_name h)) (streak h) acc)
          acc habits in
  map_Forall (fun _ v => 0 ≤ v) o
  ∧ sumValues o ≤ sumValues acc + streakSum habits.
Proof.
  revert acc. induction habits as [|h hs IH]; intros acc Hall Hacc; simpl.
  - split; [done |]. unfold streakSum. simpl. lia.
  - apply Forall_cons in Hall as [Hh Hall].
    assert (Hacc' : map_Forall (fun _ v => 0 ≤ v)
                      (obj_set (toLowerCase pf (habit_name h)) (streak h) acc)).
    { unfold obj_set. case_bool_decide; [done |].
      by apply map_Forall_insert_2. }
    destruct (IH _ Hall Hacc') as [Hnn Hle]. split; [exact Hnn |].
    assert (Hstep : sumValues
                      (obj_set (toLowerCase pf (habit_name h)) (streak h) acc)
                    ≤ sumValues acc + streak h).
    { unfold obj_set. case_bool_decide; [lia |].
      by apply sumValues_insert_le. }
    unfold streakSum in *. simpl. lia.
Qed.

(** X19.  Shared names can only lower the user's total.  When every streak
    is ≥ 0, the total shown for "You" lies between 0 and the sum of the
    streaks of all habits. *)
Theorem leaderboard_user_total_bounds (pf : Platform) (habits : list Habit) :
  Forall (fun h => 0 ≤ streak h) habits →
  ∃ total, totalStreak (withTotal (userEntry pf habits)) = Some total
           ∧ 0 ≤ total ≤ streakSum habits.
Proof.
  intros Hall. exists (sumValues (userHabits pf habits)).
  split; [done |].
  destruct (foldl_obj_set_bounds pf habits ∅ Hall (map_Forall_empty _))
    as [Hnn Hle].
  rewrite sumValues_empty in Hle. unfold userHabits.
  split; [by apply sumValues_nonneg | lia].
Qed.

Lemma leaderboard_user_total_bounds_witness :
  ∃ total,
    totalStreak
      (withTotal (userEntry Device.platform
                    [Sample.doneYesterday; Sample.sameNameOtherCase]))
    = Some total
    ∧ 0 ≤ total ≤ 7.
Proof.
  apply (leaderboard_user_total_bounds Device.platform
           [Sample.doneYesterday; Sample.sameNameOtherCase]).
  repeat constructor; simpl; lia.
Defined.

Lemma filter_all {A} (P : A → Prop) `{!∀ x, Decision (P x)} (l : list A) :
  Forall P l → filter P l = l.
Proof.
  induction 1 as [|x l Hx _ IH]; [done |].
  by rewrite filter_cons_True, IH.
Qed.

Lemma filter_none {A} (P : A → Prop) `{!∀ x, Decision (P x)} (l : list A) :
  Forall (fun x => ¬ P x) l → filter P l = [].
Proof.
  induction 1 as [|x l Hx _ IH]; [done |].
  by rewrite filter_cons_False.
Qed.

Lemma leaderboard_split (pf : Platform) (habits : list Habit) :
  let you := withTotal (userEntry pf habits) in
  ∃ before after,
    getLeaderboardData pf habits = (before ++ you :: after)%list
    ∧ (before ++ after)%list ≡ₚ map withTotal MOCK_FRIENDS
    ∧ Forall (fun p => rankKey you < rankKey p) before
    ∧ Forall (fun p => ¬ rankKey you < rankKey p) after.
Proof.
  intros you. subst you.
  pose proof (Array_sort_strongly_sorted byTotalStreakDesc rankKey
                byTotalStreakDesc_key
                (map withTotal (allData pf habits))) as Hsorted.
  change (Array_sort byTotalStreakDesc (map withTotal (allData pf habits)))
    with (getLeaderboardData pf habits) in Hsorted.
  rewrite getLeaderboardData_insert in *.
  destruct (sort_insert_split byTotalStreakDesc
              (withTotal (userEntry pf habits))
              (Array_sort byTotalStreakDesc (map withTotal MOCK_FRIENDS)))
    as (before & after & E & Epeers & Hbefore).
  exists before, after. rewrite E in Hsorted |- *. split_and!.
  - done.
  - rewrite <- Epeers. apply Array_sort_perm.
  - eapply Forall_impl; [exact Hbefore |].
    intros p Hp. simpl in Hp. rewrite byTotalStreakDesc_key in Hp. lia.
  - apply StronglySorted_app_1_r, StronglySorted_cons in Hsorted
      as [Hafter _].
    eapply Forall_impl; [exact Hafter |].
    intros p Hp. unfold descending in Hp. lia.
Qed.

(** X17.  The user's rank.  The leaderboard screen always shows five
    cards, ranked 1 to 5 from the top, and the rank of the user's card is
    one more than the number of peers whose total is strictly greater than
    the user's: a peer with the same total is ranked below the user. *)
Theorem leaderboard_user_rank (pf : Platform) (habits : list Habit) :
  let you := withTotal (userEntry pf habits) in
  let ahead :=
    filter (fun p => rankKey you < rankKey p) (map withTotal MOCK_FRIENDS) in
  map fst (leaderboardRanks pf habits) = [1; 2; 3; 4; 5]
  ∧ leaderboardRanks pf habits !! length ahead
    = Some (Z.of_nat (length ahead) + 1, you).
Proof.
  intros you ahead.
  destruct (leaderboard_split pf habits)
    as (before & after & E & Hperm & Hbefore & Hafter).
  fold you in E, Hbefore, Hafter.
  assert (Hlen : length (getLeaderboardData pf habits) = 5%nat).
  { unfold getLeaderboardData. rewrite Array_sort_perm. done. }
  split.
  - unfold leaderboardRanks.
    destruct (getLeaderboardData pf habits)
      as [|p1 [|p2 [|p3 [|p4 [|p5 [|p6 l]]]]]]; try done.
  - assert (Hahead : length ahead = length before).
    { subst ahead. rewrite <- Hperm, filter_app.
      rewrite (filter_all _ before Hbefore), (filter_none _ after Hafter).
      by rewrite app_nil_r. }
    unfold leaderboardRanks. rewrite list_lookup_imap, Hahead, E.
    by rewrite list_lookup_middle.
Qed.

(** The first character of a number in decimal is a digit or the minus
    sign. *)
Lemma pretty_N_char_digit (n : N) : Ascii.is_nat (pretty_N_char n) ≠ None.
Proof.
  destruct n as [|p]; [done |].
  do 4 (try destruct p as [p|p|]); done.
Qed.

Lemma pretty_N_go_head (x : N) :
  ∀ s, (0 < x)%N →
    ∃ c t, pretty_N_go x s = String c t ∧ Ascii.is_nat c ≠ None.
Proof.
  induction (N.lt_wf_0 x) as [x _ IH]. intros s Hx.
  rewrite pretty_N_go_step by done.
  destruct (decide (0 < x `div` 10)%N) as [Hdiv | Hdiv].
  - apply IH; [| done]. by apply N.div_lt.
  - destruct (x `div` 10)%N as [|q]; [| by destruct Hdiv].
    rewrite pretty_N_go_0. eexists _, _. split; [done |].
    apply pretty_N_char_digit.
Qed.

Lemma pretty_Z_head (z : Z) :
  ∃ c t, pretty z = String c t
         ∧ (Ascii.is_nat c ≠ None ∨ c = "-"%char).
Proof.
  destruct z as [|p|p].
  - exists "0"%char, "". split; [reflexivity | by left].
  - destruct (pretty_N_go_head (N.pos p) "") as (c & t & E & Hc); [done |].
    exists c, t. split; [| by left].
    unfold pretty, pretty_Z, pretty, pretty_positive, pretty, pretty_N.
    by rewrite decide_False.
  - exists "-"%char, (pretty p). split; [done | by right].
Qed.

Lemma pretty_Z_not_medal (z : Z) (c : ascii) (t : string) :
  Ascii.is_nat c = None → c ≠ "-"%char → pretty z ≠ String c t.
Proof.
  intros Hc Hminus E.
  destruct (pretty_Z_head z) as (c' & t' & E' & Hhead).
  rewrite E' in E. injection E as Ec _. subst c'.
  by destruct Hhead.
Qed.

(** X18.  Distinct ranks never show the same label: [getMedal] is
    injective, the three medals being different from one another and from
    every number written in decimal. *)
Theorem getMedal_injective (r1 r2 : Z) :
  getMedal r1 = getMedal r2 → r1 = r2.
Proof.
  unfold getMedal.
  destruct (r1 =? 1) eqn:H11; [apply Z.eqb_eq in H11 |];
  destruct (r2 =? 1) eqn:H21; try apply Z.eqb_eq in H21;
  try (destruct (r1 =? 2) eqn:H12; [apply Z.eqb_eq in H12 |]);
  try (destruct (r2 =? 2) eqn:H22; [apply Z.eqb_eq in H22 |]);
  try (destruct (r1 =? 3) eqn:H13; [apply Z.eqb_eq in H13 |]);
  try (destruct (r2 =? 3) eqn:H23; [apply Z.eqb_eq in H23 |]);
  intros E; try congruence; try discriminate E;
  try (by apply pretty_Z_not_medal in E);
  try (symmetry in E; by apply pretty_Z_not_medal in E).
  by apply (inj pretty).
Qed.

Lemma getMedal_injective_witness :
  getMedal 4 = getMedal (2 + 2) ∧ (4 : Z) = 2 + 2.
Proof.
  split; [reflexivity |]. apply getMedal_injective. reflexivity.
Defined.

(** ** What the home screen offers *)

(** X20.  A deleted habit cannot be operated any more: once a deletion of
    [id] has been confirmed, no habit carries [id], and no screen offers a
    check button or a delete button for it. *)
Theorem deleted_habit_is_not_offered
    (pf : Platform) (id : string) (w : World) :
  let w' := (deleteHabit pf id PressDelete w).1 in
  (∀ h, h ∈ habits w' → habit_id h ≠ id)
  ∧ ¬ offered w' (PressCheck id)
  ∧ ∀ choice, ¬ offered w' (PressDeleteButton id choice).
Proof.
  intros w'. subst w'.
  destruct (deleteHabit_run pf id PressDelete w) as (w' & -> & Hh & _).
  simpl.
  assert (Hgone : id ∉ map habit_id (habits w')).
  { rewrite Hh. intros Hin.
    apply list_elem_of_fmap in Hin as (h & Hid & Hin).
    apply list_elem_of_filter in Hin as [Hne _]. by apply Hne. }
  split_and!.
  - intros h Hin Hid. apply Hgone. rewrite <- Hid.
    by apply (list_elem_of_fmap_2 habit_id).
  - unfold offered. destruct (screen w'); [exact Hgone | tauto | tauto].
  - intros choice. unfold offered.
    destruct (screen w'); [exact Hgone | tauto | tauto].
Qed.
